(** * mqtt_node_network.node: a shallow embedding of [MQTTNode]

    The development follows [src/mqtt_node_network/node.py].  Python values
    are modelled as the source uses them: a [str] is a sequence of Unicode
    code points, [bytes] a sequence of bytes, an [int] an integer of [Z].
    The transport client (paho), the metrics registry (prometheus), the
    logger and [time.sleep] are collaborators of the node; they are
    modelled by what the node can observe of them. *)

From stdpp Require Import gmap list strings pretty.
From Stdlib Require Import Strings.Ascii Strings.Byte.

Local Open Scope Z_scope.

(** ** Python strings *)

Module PyStr.

Definition codepoint := N.

(** A Python [str]: its code points, in order. [len] is [length]. *)
Definition str := list codepoint.

(** An ASCII literal of the source, as a [str]. *)
Definition lit (s : string) : str :=
  N_of_ascii <$> String.list_ascii_of_string s.

(** [str.isspace] on one code point (CPython's [Py_UNICODE_ISSPACE]). *)
Definition isspace (c : codepoint) : bool :=
  ((9 <=? c) && (c <=? 13) || (28 <=? c) && (c <=? 32)
   || (c =? 133) || (c =? 160) || (c =? 5760)
   || (8192 <=? c) && (c <=? 8202)
   || (c =? 8232) || (c =? 8233) || (c =? 8239) || (c =? 8287)
   || (c =? 12288))%N.

(** [str.lstrip()]: drop the leading white space. *)
Fixpoint lstrip (s : str) : str :=
  match s with
  | [] => []
  | c :: s' => if isspace c then lstrip s' else s
  end.

(** [str.rstrip()]: drop the trailing white space. *)
Fixpoint rstrip (s : str) : str :=
  match s with
  | [] => []
  | c :: s' =>
      match rstrip s' with
      | [] => if isspace c then [] else [c]
      | r => c :: r
      end
  end.

(** [str.strip()] *)
Definition strip (s : str) : str := rstrip (lstrip s).

(** The slice [s[:stop]]: a negative [stop] counts from the end, and the
    bounds are clamped to the string. *)
Definition slice_to (s : str) (stop : Z) : str :=
  if stop <? 0
  then take (Z.to_nat (Z.of_nat (length s) + stop)) s
  else take (Z.to_nat stop) s.

(** [str(n)] for an [int]: its decimal digits, with a sign when negative. *)
Definition str_of_nat (n : nat) : str := lit (pretty n).
Definition str_of_int (z : Z) : str := lit (pretty z).

End PyStr.

Import PyStr.

(** ** Module-level helpers of node.py *)

(** [shorten_data(data, max_length=75)], lines 26-31.  The argument is a
    [str], so the conversion of line 29 does not apply. *)
Definition shorten_data (data : str) (max_length : Z) : str :=
  let data := strip data in
  if Z.of_nat (length data) >? max_length
  then slice_to data max_length ++ lit "..."
  else data.

(** ** bytes and the UTF-8 codec *)

Definition bytes := list byte.

Module Utf8.

Definition cont (b : N) : bool := ((128 <=? b) && (b <=? 191))%N.
Definition low6 (b : N) : N := N.land b 63.

(** Strict UTF-8: shortest form only, no surrogates, nothing above
    U+10FFFF.  [None] is [UnicodeDecodeError]. *)
Fixpoint decode_N (bs : list N) : option str :=
  match bs with
  | [] => Some []
  | b0 :: r0 =>
      if (b0 <? 128)%N then cons b0 <$> decode_N r0
      else if ((194 <=? b0) && (b0 <=? 223))%N then
        match r0 with
        | b1 :: r1 =>
            if cont b1
            then cons ((b0 - 192) * 64 + low6 b1)%N <$> decode_N r1
            else None
        | _ => None
        end
      else if ((224 <=? b0) && (b0 <=? 239))%N then
        match r0 with
        | b1 :: b2 :: r2 =>
            let cp := ((b0 - 224) * 4096 + low6 b1 * 64 + low6 b2)%N in
            if cont b1 && cont b2 && (2048 <=? cp)%N
               && negb ((55296 <=? cp) && (cp <=? 57343))%N
            then cons cp <$> decode_N r2
            else None
        | _ => None
        end
      else if ((240 <=? b0) && (b0 <=? 244))%N then
        match r0 with
        | b1 :: b2 :: b3 :: r3 =>
            let cp := ((b0 - 240) * 262144 + low6 b1 * 4096
                       + low6 b2 * 64 + low6 b3)%N in
            if cont b1 && cont b2 && cont b3
               && (65536 <=? cp)%N && (cp <=? 1114111)%N
            then cons cp <$> decode_N r3
            else None
        | _ => None
        end
      else None
  end.

(** [payload.decode()] *)
Definition decode (bs : bytes) : option str := decode_N (Byte.to_N <$> bs).

End Utf8.

(** ** Data model *)

(** The exceptions the node can meet. [OSError] stands for any socket error
    other than a refused connection (a timeout, an unknown host). *)
Inductive exn :=
| AttributeError
| ConnectionRefusedError
| OSError
| UnicodeDecodeError
| ValueError.

(** MQTT quality of service; [mqtt.SubscribeOptions] accepts no other value. *)
Inductive qos := QoS0 | QoS1 | QoS2.

(** A [mqtt.SubscribeOptions] object.  The class defines no [__eq__], so
    two options objects compare equal only when they are one object: [oid]
    is the identity of the object, given at its construction. *)
Record SubscribeOptions := { oid : nat; QoS : qos }.

(** What [subscribe] and the registry hold: a bare topic string, or the
    tuple [(topic, SubscribeOptions)]. *)
Inductive topic :=
| TStr (s : str)
| TTuple (s : str) (o : SubscribeOptions).

(** The argument of [unsubscribe]: a string or a list of strings. *)
Inductive unsub_topic :=
| UStr (s : str)
| UList (l : list str).

#[global] Instance exn_eq_dec : EqDecision exn.
Proof. solve_decision. Defined.
#[global] Instance qos_eq_dec : EqDecision qos.
Proof. solve_decision. Defined.
#[global] Instance SubscribeOptions_eq_dec : EqDecision SubscribeOptions.
Proof. solve_decision. Defined.
#[global] Instance topic_eq_dec : EqDecision topic.
Proof. solve_decision. Defined.

(** The topic filter an entry names. *)
Definition topic_filter (t : topic) : str :=
  match t with TStr s => s | TTuple s _ => s end.

Definition is_tuple (t : topic) : bool :=
  match t with TStr _ => false | TTuple _ _ => true end.

(** [MQTTBrokerConfig], lines 72-80. *)
Record MQTTBrokerConfig := {
  username : str;
  password : str;
  keepalive : Z;
  hostname : str;
  port : Z;
  timeout : Z;
  reconnect_attempts : Z;
}.

(** The attributes of an [MQTTNode] instance, lines 119-137. *)
Record MQTTNode := {
  name : option str;
  node_id : str;
  node_type : str;
  client_id : str;
  subscriptions : list topic;
  node_hostname : str;
  node_port : Z;
  node_keepalive : Z;
  node_timeout : Z;
  node_reconnect_attempts : Z;
  _username : str;
  _password : str;
}.

Definition set_subscriptions (l : list topic) (n : MQTTNode) : MQTTNode :=
  {| name := name n; node_id := node_id n; node_type := node_type n;
     client_id := client_id n; subscriptions := l;
     node_hostname := node_hostname n; node_port := node_port n;
     node_keepalive := node_keepalive n; node_timeout := node_timeout n;
     node_reconnect_attempts := node_reconnect_attempts n;
     _username := _username n; _password := _password n |}.

Definition set_reconnect_attempts (r : Z) (n : MQTTNode) : MQTTNode :=
  {| name := name n; node_id := node_id n; node_type := node_type n;
     client_id := client_id n; subscriptions := subscriptions n;
     node_hostname := node_hostname n; node_port := node_port n;
     node_keepalive := node_keepalive n; node_timeout := node_timeout n;
     node_reconnect_attempts := r;
     _username := _username n; _password := _password n |}.

(** A received message, as the transport hands it to [on_message]. *)
Record MQTTMessage := {
  msg_topic : str;
  payload : bytes;
  msg_qos : qos;
}.

(** *** The transport client, as the node sees it *)

(** What one call of [client.reconnect()] can do. *)
Inductive reconnect_result :=
| Established   (* returns; the client is connected at the next test *)
| Pending       (* returns; the client is still not connected *)
| Refused       (* raises ConnectionRefusedError *)
| Failed.       (* raises another socket error *)

Record Client := {
  host : str;
  client_port : Z;
  connected : bool;
  attempts : nat;       (* calls of reconnect() so far *)
}.

(** The calls the node issues on its collaborators, in order. *)
Inductive call :=
| CReconnect
| CSubscribe (t : topic)
| CUnsubscribe (t : unsub_topic)
| CPublish (t : str) (p : bytes) (q : qos) (retain : bool)
| CSleep (seconds : Z).

(** The answers of the transport: the result of the k-th reconnect, and the
    result code or message id each request returns after a given history of
    calls. *)
Record Transport := {
  reconnect_outcome : nat -> reconnect_result;
  subscribe_result : list call -> topic -> Z;
  unsubscribe_result : list call -> unsub_topic -> Z;
  publish_result : list call -> Z;
}.

(** *** Log records *)

Inductive level := DEBUG | INFO | ERROR.

(** One constructor per log statement of node.py, with the values its
    format string and [extra] carry. *)
Inductive log_msg :=
| LogSubscribeFailed (t : topic) (reason_code : Z)       (* line 184 *)
| LogSubscribed (t : topic)                              (* line 189 *)
| LogReconnectFailed (h : str) (p : Z)                   (* line 222 *)
| LogRetry (reconnects : Z) (seconds : Z)                (* line 226 *)
| LogConnecting (h : str) (p : Z)                        (* line 244 *)
| LogConnected (h : str) (p : Z)                         (* line 247 *)
| LogConnectFailed (h : str) (p : Z)                     (* line 251 *)
| LogDisconnected (reason_code : Z)                      (* line 256 *)
| LogReceived (t : str) (preview : str) (q : qos)        (* line 265 *)
| LogPublished (mid : Z).                                (* line 274 *)

Definition log_record : Type := level * log_msg.

(** *** Metrics *)

(** The label values of a counter child: node_id, name, node_type, host. *)
Definition labels : Type := str * str * str * str.

(** A prometheus [Counter]: one value per label tuple, zero until first
    incremented.  The library keeps each value as a float; the counts of
    messages and bytes are whole numbers, kept here in [N]. *)
Record Metrics := {
  node_bytes_received_count : gmap labels N;
  node_bytes_sent_count : gmap labels N;
  node_messages_received_count : gmap labels N;
  node_messages_sent_count : gmap labels N;
}.

Definition value (c : gmap labels N) (l : labels) : N := default 0%N (c !! l).

Definition inc (l : labels) (amount : N) (c : gmap labels N) : gmap labels N :=
  <[l := (value c l + amount)%N]> c.

(** [labels(self.node_id, self.name, self.node_type, self.hostname)]: each
    value is rendered with [str], so a missing name reads "None". *)
Definition labels_of (n : MQTTNode) : labels :=
  (node_id n, default (lit "None") (name n), node_type n, node_hostname n).

(** *** The state the methods act on *)

Record World := {
  node : MQTTNode;           (* self *)
  client : Client;           (* self.client *)
  calls : list call;
  log : list log_record;
  metrics : Metrics;
  next_oid : nat;            (* identity of the next object constructed *)
}.

Definition with_node (n : MQTTNode) (w : World) : World :=
  {| node := n; client := client w; calls := calls w; log := log w;
     metrics := metrics w; next_oid := next_oid w |}.
Definition with_client (c : Client) (w : World) : World :=
  {| node := node w; client := c; calls := calls w; log := log w;
     metrics := metrics w; next_oid := next_oid w |}.
Definition with_calls (l : list call) (w : World) : World :=
  {| node := node w; client := client w; calls := l; log := log w;
     metrics := metrics w; next_oid := next_oid w |}.
Definition with_log (l : list log_record) (w : World) : World :=
  {| node := node w; client := client w; calls := calls w; log := l;
     metrics := metrics w; next_oid := next_oid w |}.
Definition with_metrics (m : Metrics) (w : World) : World :=
  {| node := node w; client := client w; calls := calls w; log := log w;
     metrics := m; next_oid := next_oid w |}.
Definition with_next_oid (k : nat) (w : World) : World :=
  {| node := node w; client := client w; calls := calls w; log := log w;
     metrics := metrics w; next_oid := k |}.

(** ** The monad of the methods: state, exceptions, and fuel for loops *)

Inductive outcome (A : Type) :=
| Done (a : A) (w : World)        (* returned [a] *)
| Raised (e : exn) (w : World)    (* raised [e] *)
| OutOfFuel.                      (* a loop was cut short by the model *)
Arguments Done {A} a w.
Arguments Raised {A} e w.
Arguments OutOfFuel {A}.

Definition M (A : Type) : Type := World -> outcome A.

#[global] Instance M_ret : MRet M := λ A a w, Done a w.
#[global] Instance M_bind : MBind M := λ A B f m w,
  match m w with
  | Done a w' => f a w'
  | Raised e w' => Raised e w'
  | OutOfFuel => OutOfFuel
  end.

Definition raise {A} (e : exn) : M A := λ w, Raised e w.
Definition gets {A} (f : World -> A) : M A := λ w, Done (f w) w.
Definition modify (f : World -> World) : M unit := λ w, Done tt (f w).
Definition out_of_fuel {A} : M A := λ _, OutOfFuel.

(** [try: m except e: h] *)
Definition try_except (m : M unit) (e : exn) (h : M unit) : M unit := λ w,
  match m w with
  | Raised e' w' => if decide (e' = e) then h w' else Raised e' w'
  | o => o
  end.

Definition logger (l : level) (m : log_msg) : M unit :=
  modify (λ w, with_log (log w ++ [(l, m)]) w).

Definition record (c : call) : M unit :=
  modify (λ w, with_calls (calls w ++ [c]) w).

(** [time.sleep(seconds)]; a negative duration is a [ValueError]. *)
Definition time_sleep (seconds : Z) : M unit :=
  if seconds <? 0 then raise ValueError else record (CSleep seconds).

(** [mqtt.SubscribeOptions(qos)]: a new object. *)
Definition new_SubscribeOptions (q : qos) : M SubscribeOptions := λ w,
  Done {| oid := next_oid w; QoS := q |} (with_next_oid (S (next_oid w)) w).

(** [metric.labels(...).inc(amount)] on one of the four counters. *)
Definition inc_messages_received (l : labels) : M unit :=
  modify (λ w, with_metrics
    {| node_bytes_received_count := node_bytes_received_count (metrics w);
       node_bytes_sent_count := node_bytes_sent_count (metrics w);
       node_messages_received_count :=
         inc l 1 (node_messages_received_count (metrics w));
       node_messages_sent_count := node_messages_sent_count (metrics w) |} w).

Definition inc_bytes_received (l : labels) (amount : N) : M unit :=
  modify (λ w, with_metrics
    {| node_bytes_received_count :=
         inc l amount (node_bytes_received_count (metrics w));
       node_bytes_sent_count := node_bytes_sent_count (metrics w);
       node_messages_received_count := node_messages_received_count (metrics w);
       node_messages_sent_count := node_messages_sent_count (metrics w) |} w).

Definition inc_messages_sent (l : labels) : M unit :=
  modify (λ w, with_metrics
    {| node_bytes_received_count := node_bytes_received_count (metrics w);
       node_bytes_sent_count := node_bytes_sent_count (metrics w);
       node_messages_received_count := node_messages_received_count (metrics w);
       node_messages_sent_count :=
         inc l 1 (node_messages_sent_count (metrics w)) |} w).

(** ** Construction: [__init__] and [_get_id] *)

(** What a class gives to attribute lookup on its instances: its name and,
    when it declares one, a class attribute [node_type]. *)
Record pyclass := { class_name : str; class_node_type : option str }.

(** [class MQTTNode], lines 83-108: it declares [_ids] and the four
    counters, and no [node_type]. *)
Definition MQTTNode_class : pyclass :=
  {| class_name := lit "MQTTNode"; class_node_type := None |}.

Inductive result (A : Type) :=
| Ok (a : A)
| Err (e : exn).
Arguments Ok {A} a.
Arguments Err {A} e.

(** [self.node_type], read while the instance attribute holds [inst]: the
    instance attribute when assigned, else the class attribute, else
    [AttributeError]. *)
Definition getattr_node_type (cls : pyclass) (inst : option str) : result str :=
  match inst with
  | Some v => Ok v
  | None =>
      match class_node_type cls with
      | Some v => Ok v
      | None => Err AttributeError
      end
  end.

(** [_get_id], lines 285-287.  [_ids] is the class attribute
    [itertools.count()], shared by all instances: [next] returns its value
    and advances it.  The f-string reads [self.node_type] first. *)
Definition _get_id (cls : pyclass) (inst_node_type : option str) (_ids : nat)
  : result str * nat :=
  match getattr_node_type cls inst_node_type with
  | Err e => (Err e, _ids)
  | Ok nt => (Ok (nt ++ lit "_" ++ str_of_nat _ids), S _ids)
  end.

(** [itertools.count()] starts at zero. *)
Definition _ids_start : nat := 0.

(** Truth value of a string: empty is false. *)
Definition truthy (s : str) : bool :=
  match s with [] => false | _ :: _ => true end.

(** [__init__], lines 110-137, in the order of its assignments.  The
    arguments [name], [node_type] and [subscriptions] default to [None],
    [node_id] to the empty string. *)
Definition __init__ (cls : pyclass) (broker_config : MQTTBrokerConfig)
    (name_arg : option str) (node_id_arg : str) (node_type_arg : option str)
    (subscriptions_arg : option (list topic)) (_ids : nat)
  : result MQTTNode * nat :=
  (* line 119: self.name = name; no instance attribute node_type so far *)
  let inst_node_type : option str := None in
  (* line 120: self.node_id = node_id or self._get_id() *)
  let '(r, _ids) :=
    if truthy node_id_arg then (Ok node_id_arg, _ids)
    else _get_id cls inst_node_type _ids in
  match r with
  | Err e => (Err e, _ids)
  | Ok self_node_id =>
      (* line 121: self.node_type = node_type or self.__class__.__name__ *)
      let self_node_type :=
        match node_type_arg with
        | Some (c :: s) => c :: s
        | _ => class_name cls
        end in
      (Ok {| name := name_arg;
             node_id := self_node_id;
             node_type := self_node_type;
             client_id := node_id_arg;                          (* line 122 *)
             subscriptions :=
               match subscriptions_arg with                     (* line 123 *)
               | Some (t :: l) => t :: l
               | _ => []
               end;
             node_hostname := hostname broker_config;
             node_port := port broker_config;
             node_keepalive := keepalive broker_config;
             node_timeout := timeout broker_config;
             node_reconnect_attempts := reconnect_attempts broker_config;
             _username := username broker_config;
             _password := password broker_config |}, _ids)
  end.

(** ** The methods of [MQTTNode] *)

Section Node.

(** The transport the node talks to. *)
Variable T : Transport.

(** [self.client.is_connected()] *)
Definition is_connected : M bool := gets (λ w, connected (client w)).

(** [self.client.reconnect()]: the k-th call meets the k-th answer. *)
Definition client_reconnect : M unit := λ w,
  let c := client w in
  let after (conn : bool) :=
    with_client {| host := host c; client_port := client_port c;
                   connected := conn; attempts := S (attempts c) |}
      (with_calls (calls w ++ [CReconnect]) w) in
  match reconnect_outcome T (attempts c) with
  | Established => Done tt (after true)
  | Pending => Done tt (after false)
  | Refused => Raised ConnectionRefusedError (after false)
  | Failed => Raised OSError (after false)
  end.

(** [self.client.subscribe(topic)]: the first component of its result. *)
Definition client_subscribe (t : topic) : M Z := λ w,
  Done (subscribe_result T (calls w) t) (with_calls (calls w ++ [CSubscribe t]) w).

Definition client_unsubscribe (t : unsub_topic) : M Z := λ w,
  Done (unsubscribe_result T (calls w) t)
       (with_calls (calls w ++ [CUnsubscribe t]) w).

Definition client_publish (t : str) (p : bytes) (q : qos) (retain : bool)
  : M Z := λ w,
  Done (publish_result T (calls w))
       (with_calls (calls w ++ [CPublish t p q retain]) w).

(** Lines 205-206 and 177-180: a bare string becomes the tuple
    [(topic, SubscribeOptions(qos))]; a tuple is kept. *)
Definition normalize (t : topic) (q : qos) : M topic :=
  match t with
  | TStr s => o ← new_SubscribeOptions q; mret (TTuple s o)
  | TTuple _ _ => mret t
  end.

(** [add_subscription_topic], lines 204-208. *)
Definition add_subscription_topic (t : topic) (q : qos) : M unit :=
  t ← normalize t q;
  self ← gets node;
  if bool_decide (t ∈ subscriptions self)
  then mret tt
  else modify (with_node (set_subscriptions (subscriptions self ++ [t]) self)).

(** [subscribe], lines 169-192. *)
Definition subscribe (t : topic) (q : qos) : M unit :=
  t ← normalize t q;
  result ← client_subscribe t;
  (if result =? 4
   then logger ERROR (LogSubscribeFailed t result)
   else logger INFO (LogSubscribed t));;
  add_subscription_topic t q.

(** [unsubscribe], lines 194-202. *)
Definition unsubscribe (t : unsub_topic) : M Z :=
  client_unsubscribe t.

(** [restore_subscriptions], lines 210-212.  The [for] statement reads
    the list by position and tests the position against the length of
    the list as it is at each step, so it sees what the body appends. *)
Fixpoint restore_loop (fuel : nat) (i : nat) : M unit :=
  match fuel with
  | O => out_of_fuel
  | S fuel =>
      self ← gets node;
      match subscriptions self !! i with
      | None => mret tt
      | Some t => subscribe t QoS0;; restore_loop fuel (S i)
      end
  end.

Definition restore_subscriptions (fuel : nat) : M unit :=
  restore_loop fuel 0.

(** [ensure_connection], lines 214-227: the [while] loop. *)
Fixpoint reconnect_loop (fuel : nat) (reconnects : Z) : M unit :=
  match fuel with
  | O => out_of_fuel
  | S fuel =>
      c ← is_connected;
      if (c : bool) then mret tt
      else
        self ← gets node;
        try_except client_reconnect ConnectionRefusedError
          (logger ERROR
             (LogReconnectFailed (node_hostname self) (node_port self)));;
        let reconnects := reconnects + 1 in
        logger INFO (LogRetry reconnects (node_timeout self));;
        time_sleep (node_timeout self);;
        reconnect_loop fuel reconnects
  end.

Definition ensure_connection (fuel : nat) : M unit :=
  c ← is_connected;
  if (c : bool) then mret tt else reconnect_loop fuel 1.

(** [publish], lines 229-231. *)
Definition publish (fuel : nat) (t : str) (p : bytes) (q : qos)
    (retain : bool) : M Z :=
  ensure_connection fuel;;
  client_publish t p q retain.

(** *** Callbacks, lines 243-274 *)

Definition on_pre_connect : M unit :=
  c ← gets client;
  logger INFO (LogConnecting (host c) (client_port c)).

Definition on_connect (fuel : nat) : M unit :=
  c ← gets client;
  logger INFO (LogConnected (host c) (client_port c));;
  restore_subscriptions fuel.

Definition on_connect_fail : M unit :=
  c ← gets client;
  logger ERROR (LogConnectFailed (host c) (client_port c)).

Definition on_disconnect (reason_code : Z) : M unit :=
  logger INFO (LogDisconnected reason_code).

Definition on_message (message : MQTTMessage) : M unit :=
  self ← gets node;
  inc_messages_received (labels_of self);;
  inc_bytes_received (labels_of self) (N.of_nat (length (payload message)));;
  match Utf8.decode (payload message) with
  | None => raise UnicodeDecodeError
  | Some text =>
      logger INFO
        (LogReceived (msg_topic message) (shorten_data text 75)
           (msg_qos message))
  end.

Definition on_publish (mid : Z) : M unit :=
  self ← gets node;
  inc_messages_sent (labels_of self);;
  logger DEBUG (LogPublished mid).

End Node.


(** ** Vocabulary of the statements *)

(** The state an outcome ends in, when the method came to an end. *)
Definition final_world {A} (o : outcome A) : option World :=
  match o with
  | Done _ w | Raised _ w => Some w
  | OutOfFuel => None
  end.

Definition outcome_map {A} (f : World -> World) (o : outcome A) : outcome A :=
  match o with
  | Done a w => Done a (f w)
  | Raised e w => Raised e (f w)
  | OutOfFuel => OutOfFuel
  end.

(** The entry [normalize t q] yields in state [w]. *)
Definition entry_of (t : topic) (q : qos) (w : World) : topic :=
  match t with
  | TStr s => TTuple s {| oid := next_oid w; QoS := q |}
  | TTuple _ _ => t
  end.

(** The object counter after [normalize t q]. *)
Definition oid_after (t : topic) (w : World) : nat :=
  match t with
  | TStr _ => S (next_oid w)
  | TTuple _ _ => next_oid w
  end.

(** The record [subscribe] logs for a result code. *)
Definition subscribe_log (rc : Z) (e : topic) : log_record :=
  if rc =? 4 then (ERROR, LogSubscribeFailed e rc) else (INFO, LogSubscribed e).

(** The registry after an entry is offered to it. *)
Definition register (e : topic) (l : list topic) : list topic :=
  if bool_decide (e ∈ l) then l else l ++ [e].

(** The records a replay of the entries [l] logs, begun after [history]. *)
Fixpoint replay_log (T : Transport) (history : list call) (l : list topic)
  : list log_record :=
  match l with
  | [] => []
  | e :: l' =>
      subscribe_log (subscribe_result T history e) e
        :: replay_log T (history ++ [CSubscribe e]) l'
  end.

(** The entries a replay hands to the transport for the registry [l], in
    order, when [k] is the identity of the next object: a bare string is
    normalised with QoS 0 into a new tuple, a tuple is handed on as it is. *)
Fixpoint normalized (k : nat) (l : list topic) : list topic :=
  match l with
  | [] => []
  | TStr s :: l' => TTuple s {| oid := k; QoS := QoS0 |} :: normalized (S k) l'
  | TTuple s o :: l' => TTuple s o :: normalized k l'
  end.

(** How many entries of a registry are bare strings. *)
Fixpoint bare (l : list topic) : nat :=
  match l with
  | [] => 0
  | TStr _ :: l' => S (bare l')
  | TTuple _ _ :: l' => bare l'
  end.

(** The calls of [n] rounds of the reconnect loop. *)
Fixpoint retry_calls (seconds : Z) (n : nat) : list call :=
  match n with
  | O => []
  | S n' => CReconnect :: CSleep seconds :: retry_calls seconds n'
  end.

(** The records [n] rounds of the reconnect loop log, when the first of
    them is the [k]-th call of [reconnect] and finds the loop counter at
    [reconnects]. *)
Fixpoint retry_log (T : Transport) (self : MQTTNode) (k : nat)
    (reconnects : Z) (n : nat) : list log_record :=
  match n with
  | O => []
  | S n' =>
      match reconnect_outcome T k with
      | Refused =>
          [(ERROR, LogReconnectFailed (node_hostname self) (node_port self))]
      | _ => []
      end
      ++ (INFO, LogRetry (reconnects + 1) (node_timeout self))
      :: retry_log T self (S k) (reconnects + 1) n'
  end.

(** An attempt that leaves the client disconnected and raises nothing the
    loop does not catch. *)
Definition stays_down (r : reconnect_result) : bool :=
  match r with
  | Refused | Pending => true
  | Established | Failed => false
  end.

(** The same state, for a node configured with another
    [reconnect_attempts]. *)
Definition configure (a : Z) (w : World) : World :=
  with_node (set_reconnect_attempts a (node w)) w.

(** The state after one round of the reconnect loop that raised nothing
    but a refusal: the reconnect, the records, the sleep. *)
Definition after_round (T : Transport) (reconnects : Z) (w : World) : World :=
  {| node := node w;
     client :=
       {| host := host (client w); client_port := client_port (client w);
          connected :=
            match reconnect_outcome T (attempts (client w)) with
            | Established => true
            | _ => false
            end;
          attempts := S (attempts (client w)) |};
     calls := calls w ++ [CReconnect; CSleep (node_timeout (node w))];
     log := log w ++ retry_log T (node w) (attempts (client w)) reconnects 1;
     metrics := metrics w;
     next_oid := next_oid w |}.

(** A sequence of [add_subscription_topic] calls. *)
Fixpoint add_all (ts : list (topic * qos)) : M unit :=
  match ts with
  | [] => mret tt
  | (t, q) :: ts' => add_subscription_topic t q;; add_all ts'
  end.

(** *** Sample values *)

Definition sample_config : MQTTBrokerConfig :=
  {| username := lit "node"; password := lit "secret"; keepalive := 60;
     hostname := lit "broker.local"; port := 1883; timeout := 5;
     reconnect_attempts := 3 |}.

Definition no_metrics : Metrics :=
  {| node_bytes_received_count := ∅; node_bytes_sent_count := ∅;
     node_messages_received_count := ∅; node_messages_sent_count := ∅ |}.

(** A node with the identifier "n1", built on [sample_config], and the
    state it starts in: not connected, nothing called or logged. *)
Definition sample_node (l : list topic) : MQTTNode :=
  {| name := None; node_id := lit "n1"; node_type := lit "MQTTNode";
     client_id := lit "n1"; subscriptions := l;
     node_hostname := hostname sample_config;
     node_port := port sample_config;
     node_keepalive := keepalive sample_config;
     node_timeout := timeout sample_config;
     node_reconnect_attempts := reconnect_attempts sample_config;
     _username := username sample_config;
     _password := password sample_config |}.

Definition start (n : MQTTNode) (up : bool) (k : nat) : World :=
  {| node := n;
     client := {| host := node_hostname n; client_port := node_port n;
                  connected := up; attempts := 0 |};
     calls := []; log := []; metrics := no_metrics; next_oid := k |}.

(** A broker that refuses the first [n] reconnects and accepts the next;
    every request returns the result code [rc]. *)
Definition sample_transport (n : nat) (rc : Z) : Transport :=
  {| reconnect_outcome := λ k, if (k <? n)%nat then Refused else Established;
     subscribe_result := λ _ _, rc;
     unsubscribe_result := λ _ _, rc;
     publish_result := λ h, Z.of_nat (length h) |}.

Ltac unfold_monad :=
  unfold mbind, M_bind, mret, M_ret, gets, modify, logger, record, raise,
    out_of_fuel.

(** One call of a method or of a callback of the node. *)
Inductive operation :=
| Subscribe (t : topic) (q : qos)
| Unsubscribe (t : unsub_topic)
| AddSubscriptionTopic (t : topic) (q : qos)
| RestoreSubscriptions
| EnsureConnection
| Publish (t : str) (p : bytes) (q : qos) (retain : bool)
| OnPreConnect
| OnConnect
| OnConnectFail
| OnDisconnect (reason_code : Z)
| OnMessage (message : MQTTMessage)
| OnPublish (mid : Z).

Definition run (T : Transport) (fuel : nat) (op : operation) : M unit :=
  match op with
  | Subscribe t q => subscribe T t q
  | Unsubscribe t => unsubscribe T t;; mret tt
  | AddSubscriptionTopic t q => add_subscription_topic t q
  | RestoreSubscriptions => restore_subscriptions T fuel
  | EnsureConnection => ensure_connection T fuel
  | Publish t p q retain => publish T fuel t p q retain;; mret tt
  | OnPreConnect => on_pre_connect
  | OnConnect => on_connect T fuel
  | OnConnectFail => on_connect_fail
  | OnDisconnect reason_code => on_disconnect reason_code
  | OnMessage message => on_message message
  | OnPublish mid => on_publish mid
  end.

Definition is_on_publish (op : operation) : bool :=
  match op with OnPublish _ => true | _ => false end.

(** ** The other helpers of node.py *)

(** *** [extend_or_append], lines 43-48 *)

(** What the loop of [extend_or_append] meets in its argument: a tuple of
    further items, or any other value. *)
#[warnings="-register-all"]
Inductive item (A : Type) :=
| Leaf (a : A)
| Tuple (items : list (item A)).
Arguments Leaf {A} a.
Arguments Tuple {A} items.

(** The body of the loop, lines 45-48, for one item: a tuple is handed to
    [extend_or_append] itself, anything else is appended.  The list is
    changed in place; here the changed list is returned. *)
Fixpoint extend_or_append_item {A} (list_topics : list A) (x : item A)
  : list A :=
  match x with
  | Leaf a => list_topics ++ [a]
  | Tuple items => fold_left extend_or_append_item items list_topics
  end.

(** [extend_or_append(list_topics, topic)]: the loop over what [topic]
    yields. *)
Definition extend_or_append {A} (list_topics : list A) (topic : list (item A))
  : list A :=
  fold_left extend_or_append_item topic list_topics.

(** The values other than tuples that an item holds, left to right. *)
Fixpoint leaves {A} (x : item A) : list A :=
  match x with
  | Leaf a => [a]
  | Tuple items => flat_map leaves items
  end.

(** *** [convert_bytes_to_human_readable], lines 34-40 *)

(** The argument is a number of Python: a float or an int.  Rationals
    stand for the finite floats, and for the arithmetic on them where it
    is exact. *)

From Stdlib Require Import QArith Qround Qabs Qpower Lqa.
Local Close Scope Q_scope.
Local Open Scope Z_scope.

(** Rounding to the nearest integer, a tie going to the even one. *)
Definition round_half_even (q : Q) : Z :=
  let f := Qfloor q in
  match Qcompare (q - inject_Z f)%Q (1 # 2)%Q with
  | Lt => f
  | Gt => f + 1
  | Eq => if Z.even f then f else f + 1
  end.

Definition two_digits (d : Z) : str :=
  if d <? 10 then lit "0" ++ str_of_int d else str_of_int d.

(** The format [{num:.2f}]: the nearest number with two decimals, ties to
    even, with its sign. *)
Definition format_2f (q : Q) : str :=
  let c := round_half_even (Qabs q * 100)%Q in
  (if Qle_bool 0%Q q then [] else lit "-")
  ++ str_of_int (c / 100) ++ lit "." ++ two_digits (c mod 100).

(** The loop of lines 36-39, over the units still to try; [unit] is the
    loop variable as the last round left it. *)
Fixpoint convert_loop (units : list string) (unit : string) (num : Q) : str :=
  match units with
  | [] => format_2f num ++ lit " " ++ lit unit                    (* line 40 *)
  | unit :: units' =>
      if negb (Qle_bool 1024%Q num)                               (* line 37 *)
      then format_2f num ++ lit " " ++ lit unit
      else convert_loop units' unit (num / 1024)%Q                (* line 39 *)
  end.

Definition units : list string := ["B"; "KB"; "MB"; "GB"; "TB"; "PB"]%string.

(** A finite float is a binary64: a significand of 53 bits and a power of
    two, with the number [significand * 2 ^ exponent] for value. *)
Definition is_binary64 (m e : Z) : bool :=
  (Z.abs m <? 2 ^ 53) && (-1074 <=? e) && (e <=? 971).

Record binary64 := {
  significand : Z;
  exponent : Z;
  binary64_ok : is_binary64 significand exponent = true }.

Definition double_value (d : binary64) : Q :=
  (inject_Z (significand d) * 2 ^ exponent d)%Q.

Definition make_binary64 (m e : Z) : option binary64 :=
  match decide (is_binary64 m e = true) with
  | left H => Some {| significand := m; exponent := e; binary64_ok := H |}
  | right _ => None
  end.

(** The floats: the finite ones, where [FNum] of significand 0 is [0.0],
    and [-0.0], the two infinities and [nan]. *)
Inductive pyfloat :=
| FNum (d : binary64)
| FNegZero
| FInf (negative : bool)
| FNaN.

Inductive pynum :=
| PInt (z : Z)
| PFloat (x : pyfloat).

(** [float(z)], the conversion an int goes through when it meets a float
    in a division and when it is formatted as a float: the nearest
    binary64, a tie going to the even significand; [None] is the
    [OverflowError] of an int too large for a float. *)
Definition float_of_int (z : Z) : option binary64 :=
  let a := Z.abs z in
  let k := Z.max 0 (Z.log2 a - 52) in            (* the bits that do not fit *)
  let q := a / 2 ^ k in
  let q' := match 2 * (a mod 2 ^ k) ?= 2 ^ k with
            | Lt => q
            | Gt => q + 1
            | Eq => if Z.even q then q else q + 1
            end in
  (* rounding up all ones carries into a 54th bit *)
  if q' =? 2 ^ 53 then make_binary64 (Z.sgn z * 2 ^ 52) (k + 1)
  else make_binary64 (Z.sgn z * q') k.

(** On a finite float the loop is [convert_loop].  [-0.0] and [-inf] are
    below 1024.0 in the first round; [inf] and [nan] are below it in none,
    and dividing them leaves them as they are. *)
Definition convert_float (x : pyfloat) : str :=
  match x with
  | FNum d => convert_loop units EmptyString (double_value d)
  | FNegZero => lit "-0.00 B"
  | FInf true => lit "-inf B"
  | FInf false => lit "inf PB"
  | FNaN => lit "nan PB"
  end.

(** An int is compared as it is in the first round, line 37; the format
    of line 38 and the division of line 39 convert it to a float, and
    from then on the number is a float. *)
Definition convert_bytes_to_human_readable (num : pynum) : option str :=
  match num with
  | PFloat x => Some (convert_float x)
  | PInt z =>
      match float_of_int z with
      | None => None
      | Some d =>
          if z <? 1024
          then Some (format_2f (double_value d) ++ lit " B")
          else Some (convert_loop (tail units) "B" (double_value d / 1024)%Q)
      end
  end.

(** The finite float a number is computed with. *)
Definition as_double (num : pynum) : option binary64 :=
  match num with
  | PInt z => float_of_int z
  | PFloat (FNum d) => Some d
  | PFloat _ => None
  end.

(** The number after [k] rounds of the loop, and the [k]-th power of 1024. *)
Fixpoint scaled (k : nat) (num : Q) : Q :=
  match k with
  | O => num
  | S k' => scaled k' (num / 1024)%Q
  end.

Fixpoint pow1024 (k : nat) : Q :=
  match k with
  | O => 1%Q
  | S k' => (1024 * pow1024 k')%Q
  end.

(** *** [parse_properties_dict], lines 51-62 *)

(** The values a user-property dictionary may hold. *)
Inductive pyvalue :=
| VStr (s : str)
| VInt (z : Z)
| VBool (b : bool)
| VNone.

(** [str(value)] *)
Definition py_str (v : pyvalue) : str :=
  match v with
  | VStr s => s
  | VInt z => str_of_int z
  | VBool true => lit "True"
  | VBool false => lit "False"
  | VNone => lit "None"
  end.

Definition isinstance_str (v : pyvalue) : bool :=
  match v with VStr _ => true | _ => false end.

(** The argument [properties]: a dict, as its items in insertion order
    under string keys, or a value that is no dict. *)
Inductive properties_arg :=
| ADict (items : list (str * pyvalue))
| ANotDict (v : pyvalue).

(** A paho [Properties] object of a PUBLISH packet, as far as the function
    fills it: [UserProperty] may be set more than once, and each assignment
    adds its pair to the pairs set before. *)
Record Properties := { UserProperty : list (str * pyvalue) }.

Definition set_UserProperty (kv : str * pyvalue) (p : Properties) : Properties :=
  {| UserProperty := UserProperty p ++ [kv] |}.

Definition parse_properties_dict (properties : properties_arg)
  : result Properties :=
  let publish_properties := {| UserProperty := [] |} in
  match properties with
  | ADict items =>
      Ok (fold_left
            (λ publish_properties kv,
               let key := kv.1 in
               let value := kv.2 in
               let value :=
                 if isinstance_str value then value else VStr (py_str value) in
               set_UserProperty (key, value) publish_properties)
            items publish_properties)
  | ANotDict _ => Err ValueError
  end.

(** *** [connect], lines 160-167 *)

(** What [connect] calls on the client besides the calls of
    [ensure_connection]. *)
Inductive setup_call :=
| SLoopStart
| SConnect (h : str) (p : Z) (keepalive : Z)
| SSetSndBuf (size : Z).

(** [self.client.connect(host, port, keepalive)]: the client takes the
    address and makes an attempt as [reconnect] does, with the next answer
    of the transport. *)
Definition client_connect (T : Transport) (h : str) (p : Z) : M unit := λ w,
  let c := client w in
  let after (conn : bool) :=
    with_client {| host := h; client_port := p;
                   connected := conn; attempts := S (attempts c) |} w in
  match reconnect_outcome T (attempts c) with
  | Established => Done tt (after true)
  | Pending => Done tt (after false)
  | Refused => Raised ConnectionRefusedError (after false)
  | Failed => Raised OSError (after false)
  end.

(** [connect]: the set-up calls it made, and how it ended. *)
Definition connect (T : Transport) (fuel : nat) (w : World)
  : list setup_call * outcome unit :=
  let self := node w in
  if connected (client w)
  then ([SLoopStart], ensure_connection T fuel w)
  else
    let attempt :=
      SConnect (node_hostname self) (node_port self) (node_keepalive self) in
    match client_connect T (node_hostname self) (node_port self) w with
    | Done _ w' =>
        ([SLoopStart; attempt; SSetSndBuf 2048], ensure_connection T fuel w')
    | Raised e w' => ([SLoopStart; attempt], Raised e w')
    | OutOfFuel => ([SLoopStart; attempt], OutOfFuel)
    end.

(** *** Runs of the node *)

(** The messages of [ms] delivered to [on_message] one after the other; a
    callback that raises does not keep the next message from being
    delivered. *)
Fixpoint deliver (ms : list MQTTMessage) (w : World) : World :=
  match ms with
  | [] => w
  | m :: ms' =>
      match on_message m w with
      | Done _ w' | Raised _ w' => deliver ms' w'
      | OutOfFuel => w
      end
  end.

(** One call of a method or callback that came to an end, by returning or
    by raising, and the states any number of such calls lead to. *)
Definition step (T : Transport) (w w' : World) : Prop :=
  exists fuel op, final_world (run T fuel op w) = Some w'.

Definition reachable (T : Transport) : World -> World -> Prop := rtc (step T).

(** The identities of the options objects a registry holds are below [k]. *)
Definition oids_below (k : nat) (l : list topic) : Prop :=
  forall s o, TTuple s o ∈ l -> (oid o < k)%nat.

(** How the state a method or callback leaves stands to the state it was
    entered in. *)
Record evolves (w w' : World) : Prop := {
  ev_registry : subscriptions (node w) `prefix_of` subscriptions (node w');
  ev_node : node w' = set_subscriptions (subscriptions (node w')) (node w);
  ev_tuples :
    Forall (λ t, is_tuple t = true) (subscriptions (node w)) ->
    Forall (λ t, is_tuple t = true) (subscriptions (node w'));
  ev_bytes_sent :
    node_bytes_sent_count (metrics w') = node_bytes_sent_count (metrics w);
  ev_bytes_received : forall l,
    (value (node_bytes_received_count (metrics w)) l
     <= value (node_bytes_received_count (metrics w')) l)%N;
  ev_messages_received : forall l,
    (value (node_messages_received_count (metrics w)) l
     <= value (node_messages_received_count (metrics w')) l)%N;
  ev_messages_sent : forall l,
    (value (node_messages_sent_count (metrics w)) l
     <= value (node_messages_sent_count (metrics w')) l)%N;
}.

(** The calls of the reconnect loop. *)
Definition is_retry_call (c : call) : bool :=
  match c with
  | CReconnect | CSleep _ => true
  | _ => false
  end.

(** The bytes of the payloads of a run of messages. *)
Definition payload_bytes (ms : list MQTTMessage) : N :=
  foldr (λ m n, (N.of_nat (length (payload m)) + n)%N) 0%N ms.

(** The messages of a run whose payload decodes. *)
Definition decodable (ms : list MQTTMessage) : list MQTTMessage :=
  filter (λ m, is_Some (Utf8.decode (payload m))) ms.
(** ** The model on concrete inputs *)

Example shorten_data_short :
  shorten_data (lit "  21.5 C ") 75 = lit "21.5 C".
Proof. reflexivity. Qed.

Example str_of_int_ex :
  str_of_int 0 = lit "0" /\ str_of_int 42 = lit "42" /\ str_of_int (-7) = lit "-7".
Proof. repeat split; reflexivity. Qed.

Example slice_to_ex :
  slice_to (lit "abcdef") 4 = lit "abcd" /\ slice_to (lit "abcdef") (-2) = lit "abcd"
  /\ slice_to (lit "abc") (-5) = [] /\ slice_to (lit "abc") 9 = lit "abc".
Proof. repeat split; reflexivity. Qed.

Example decode_ascii :
  Utf8.decode [x32; x31; x2e; x35] = Some (lit "21.5").
Proof. reflexivity. Qed.

Example decode_degree_sign :
  Utf8.decode [xc2; xb0; x43] = Some [176%N; 67%N].
Proof. reflexivity. Qed.

Example decode_euro_and_emoji :
  Utf8.decode [xe2; x82; xac; xf0; x9f; x98; x80] = Some [8364%N; 128512%N].
Proof. reflexivity. Qed.

Example decode_rejects :
  Utf8.decode [xff] = None /\ Utf8.decode [xc0; x80] = None
  /\ Utf8.decode [xed; xa0; x80] = None /\ Utf8.decode [xe2; x82] = None.
Proof. repeat split; reflexivity. Qed.

Example init_sample_node :
  __init__ MQTTNode_class sample_config None (lit "n1") None
    (Some [TStr (lit "sensors/a")]) _ids_start
  = (Ok (sample_node [TStr (lit "sensors/a")]), _ids_start).
Proof. reflexivity. Qed.

Example subscribe_then_replay :
  let T := sample_transport 0 0 in
  let a := TTuple (lit "sensors/a") {| oid := 0; QoS := QoS1 |} in
  (subscribe T (TStr (lit "sensors/a")) QoS1;; on_connect T 2)
    (start (sample_node []) true 0)
  = Done tt
      {| node := sample_node [a];
         client := {| host := lit "broker.local"; client_port := 1883;
                      connected := true; attempts := 0 |};
         calls := [CSubscribe a; CSubscribe a];
         log := [(INFO, LogSubscribed a);
                 (INFO, LogConnected (lit "broker.local") 1883);
                 (INFO, LogSubscribed a)];
         metrics := no_metrics;
         next_oid := 1 |}.
Proof. vm_compute. reflexivity. Qed.
(** ** Facts on Python strings *)

Section StrFacts.

Lemma lstrip_length (s : str) : (length (lstrip s) <= length s)%nat.
Proof.
  induction s as [|c s IH]; simpl; [lia|].
  destruct (isspace c); simpl; lia.
Qed.

Lemma rstrip_length (s : str) : (length (rstrip s) <= length s)%nat.
Proof.
  induction s as [|c s IH]; simpl; [lia|].
  destruct (rstrip s) as [|d r]; [destruct (isspace c)|]; simpl in *; lia.
Qed.

Lemma strip_length (s : str) : (length (strip s) <= length s)%nat.
Proof.
  unfold strip. pose proof (rstrip_length (lstrip s)).
  pose proof (lstrip_length s). lia.
Qed.

(** What [lstrip] returns starts with no white space. *)
Lemma lstrip_head (s : str) :
  lstrip s = [] \/ exists c t, lstrip s = c :: t /\ isspace c = false.
Proof.
  induction s as [|c s IH]; simpl; [by left|].
  destruct (isspace c) eqn:E; [done|]. right. by exists c, s.
Qed.

Lemma rstrip_cons (c : codepoint) (s : str) :
  isspace c = false -> rstrip (c :: s) = c :: rstrip s.
Proof. intros E. simpl. rewrite E. by destruct (rstrip s). Qed.

Lemma rstrip_idem (s : str) : rstrip (rstrip s) = rstrip s.
Proof.
  induction s as [|c s IH]; [done|]. simpl.
  destruct (rstrip s) as [|d r] eqn:E.
  - destruct (isspace c) eqn:Ec; [done|]. simpl. by rewrite Ec.
  - change (rstrip (c :: d :: r)) with
      (match rstrip (d :: r) with
       | [] => if isspace c then [] else [c]
       | x => c :: x end).
    by rewrite IH.
Qed.

Lemma strip_idem (s : str) : strip (strip s) = strip s.
Proof.
  unfold strip. destruct (lstrip_head s) as [E|(c & t & E & Hc)]; rewrite E.
  - done.
  - rewrite (rstrip_cons c t Hc). simpl lstrip. rewrite Hc.
    rewrite <- (rstrip_cons c t Hc). apply rstrip_idem.
Qed.

End StrFacts.

(** ** [shorten_data] *)

Lemma shorten_data_short_eq (s : str) :
  (length (strip s) <= 75)%nat -> shorten_data s 75 = strip s.
Proof.
  intros H. unfold shorten_data.
  destruct (Z.gtb_spec (Z.of_nat (length (strip s))) 75); [lia|done].
Qed.

Lemma shorten_data_long_eq (s : str) :
  (75 < length (strip s))%nat ->
  shorten_data s 75 = take 75 (strip s) ++ lit "...".
Proof.
  intros H. unfold shorten_data.
  destruct (Z.gtb_spec (Z.of_nat (length (strip s))) 75); [done|lia].
Qed.

(** C9, as the code has it: [shorten_data] strips the white space around
    its argument before it measures it.  It is idempotent on every string of
    at most 75 characters; a string whose stripped form is longer than 75
    characters yields the first 75 characters of the stripped form followed
    by the three characters "...", 78 characters in all (for a string with
    no white space around it, these are its own first 75 characters); a
    string whose stripped form has at most 75 characters yields that form,
    with no marker. *)
Theorem shorten_data_strip_spec (s : str) :
  ((length s <= 75)%nat ->
     shorten_data (shorten_data s 75) 75 = shorten_data s 75)
  /\ ((75 < length (strip s))%nat ->
        shorten_data s 75 = take 75 (strip s) ++ lit "..."
        /\ length (shorten_data s 75) = 78%nat)
  /\ ((75 < length s)%nat -> strip s = s ->
        shorten_data s 75 = take 75 s ++ lit "...")
  /\ ((length (strip s) <= 75)%nat -> shorten_data s 75 = strip s).
Proof.
  split; [|split; [|split]].
  - intros H. pose proof (strip_length s).
    rewrite (shorten_data_short_eq s) by lia.
    rewrite shorten_data_short_eq; rewrite strip_idem; [done|lia].
  - intros H. rewrite shorten_data_long_eq by done. split; [done|].
    rewrite length_app, length_take.
    change (length (lit "...")) with 3%nat. lia.
  - intros H E. rewrite shorten_data_long_eq; rewrite E; done.
  - apply shorten_data_short_eq.
Qed.

(** C9 as stated fails on a 76-character string that ends in a newline:
    the result is the 75 characters before it, with no marker. *)
Lemma shorten_data_long_counterexample :
  let s := replicate 75 97%N ++ [10%N] in
  (75 < length s)%nat
  /\ shorten_data s 75 = replicate 75 97%N
  /\ shorten_data s 75 <> take 75 s ++ lit "..."
  /\ length (shorten_data s 75) <> 78%nat.
Proof. vm_compute. repeat split; try lia; discriminate. Qed.

(** ** The subscription registry *)

Section Registry.

Variable T : Transport.

Lemma entry_of_is_tuple t q w : is_tuple (entry_of t q w) = true.
Proof. by destruct t. Qed.

Lemma entry_of_filter t q w : topic_filter (entry_of t q w) = topic_filter t.
Proof. by destruct t. Qed.

Lemma entry_of_tuple e q w : is_tuple e = true -> entry_of e q w = e.
Proof. by destruct e. Qed.

Lemma register_elem e l : e ∈ register e l.
Proof.
  unfold register. case_bool_decide as H; [done|].
  apply elem_of_app. right. by apply list_elem_of_singleton.
Qed.

Lemma register_in e l : e ∈ l -> register e l = l.
Proof. intros H. unfold register. by rewrite bool_decide_eq_true_2. Qed.

Lemma register_notin e l : e ∉ l -> register e l = l ++ [e].
Proof. intros H. unfold register. by rewrite bool_decide_eq_false_2. Qed.

Lemma register_tuples e l :
  is_tuple e = true -> Forall (λ t, is_tuple t = true) l ->
  Forall (λ t, is_tuple t = true) (register e l).
Proof.
  intros He Hl. unfold register. case_bool_decide; [done|].
  apply Forall_app. split; [done|]. by constructor.
Qed.

(** [add_subscription_topic] never raises: it offers the normalised entry
    to the registry. *)
Lemma add_subscription_topic_eq t q w :
  add_subscription_topic t q w =
  Done tt {| node := set_subscriptions
                       (register (entry_of t q w) (subscriptions (node w)))
                       (node w);
             client := client w; calls := calls w; log := log w;
             metrics := metrics w; next_oid := oid_after t w |}.
Proof.
  unfold add_subscription_topic, normalize, new_SubscribeOptions, register.
  unfold_monad. destruct w as [n c cs lg m k], n, t; cbn;
    case_bool_decide; reflexivity.
Qed.

(** [subscribe] never raises either: one call on the transport, one log
    record chosen by the result code, and the entry offered to the
    registry whatever that code was. *)
Lemma subscribe_eq t q w :
  let e := entry_of t q w in
  subscribe T t q w =
  Done tt {| node := set_subscriptions (register e (subscriptions (node w)))
                       (node w);
             client := client w;
             calls := calls w ++ [CSubscribe e];
             log := log w ++ [subscribe_log (subscribe_result T (calls w) e) e];
             metrics := metrics w;
             next_oid := oid_after t w |}.
Proof.
  unfold subscribe, add_subscription_topic, normalize, new_SubscribeOptions,
    client_subscribe, subscribe_log, register.
  unfold_monad. destruct w as [n c cs lg m k], n, t; cbn;
    destruct (subscribe_result T cs _ =? 4); cbn;
    case_bool_decide; reflexivity.
Qed.

(** A run of [add_subscription_topic] calls whose filters are new to the
    registry and pairwise distinct appends one entry per call. *)
Lemma add_all_distinct (ts : list (topic * qos)) :
  forall w,
    NoDup (topic_filter ∘ fst <$> ts) ->
    (forall f, f ∈ (topic_filter ∘ fst <$> ts) ->
               f ∉ (topic_filter <$> subscriptions (node w))) ->
    exists w',
      add_all ts w = Done tt w'
      /\ topic_filter <$> subscriptions (node w')
         = (topic_filter <$> subscriptions (node w))
             ++ (topic_filter ∘ fst <$> ts).
Proof.
  induction ts as [|[t q] ts IH]; intros w Hnd Hnew.
  - exists w. split; [done|]. by rewrite app_nil_r.
  - rewrite fmap_cons in Hnd. apply NoDup_cons in Hnd as [Ht Hnd].
    cbn [add_all]. unfold mbind, M_bind at 1.
    rewrite add_subscription_topic_eq.
    assert (He : entry_of t q w ∉ subscriptions (node w)).
    { intros Hin. apply (Hnew (topic_filter t)).
      - rewrite fmap_cons. apply elem_of_cons. by left.
      - rewrite <- (entry_of_filter t q w). by apply list_elem_of_fmap_2. }
    rewrite (register_notin _ _ He).
    edestruct IH as (w' & Hrun & Hf); [exact Hnd| |].
    2:{ exists w'. split; [exact Hrun|]. rewrite Hf. cbn.
        rewrite fmap_app, <- app_assoc. cbn.
        by rewrite entry_of_filter. }
    intros f Hf Hin. cbn in Hin. rewrite fmap_app in Hin.
    apply elem_of_app in Hin as [Hin|Hin].
    + apply (Hnew f); [|done]. rewrite fmap_cons. apply elem_of_cons. by right.
    + cbn in Hin. apply list_elem_of_singleton in Hin.
      rewrite entry_of_filter in Hin. by subst f.
Qed.

End Registry.

(** C2, as the code has it: the registry is a list whose entries are
    compared whole, as (topic filter, options) tuples, and not by their
    filter string.  [add_subscription_topic] leaves the registry as it is
    when the normalised entry is already in it, and appends the entry
    otherwise; an entry whose filter is new to the registry is appended, and
    so is an entry whose filter is registered only with another QoS.  After
    any sequence of calls with pairwise distinct filters on an empty
    registry, in whatever order, the registry holds one entry per call and
    names the filters in call order. *)
Theorem add_subscription_topic_compares_entries :
  (forall (t : topic) (q : qos) (w : World),
     let e := entry_of t q w in
     let l := subscriptions (node w) in
     exists w',
       add_subscription_topic t q w = Done tt w'
       /\ (e ∈ l -> subscriptions (node w') = l)
       /\ (e ∉ l -> subscriptions (node w') = l ++ [e])
       /\ (topic_filter t ∉ (topic_filter <$> l) ->
             subscriptions (node w') = l ++ [e])
       /\ ((forall s o o', e = TTuple s o -> TTuple s o' ∈ l ->
                           QoS o' <> QoS o) ->
             subscriptions (node w') = l ++ [e]))
  /\ (forall (ts : list (topic * qos)) (w : World),
        subscriptions (node w) = [] ->
        NoDup (topic_filter ∘ fst <$> ts) ->
        exists w',
          add_all ts w = Done tt w'
          /\ length (subscriptions (node w')) = length ts
          /\ topic_filter <$> subscriptions (node w')
             = (topic_filter ∘ fst <$> ts)).
Proof.
  split.
  - intros t q w e l. eexists. split; [apply add_subscription_topic_eq|].
    cbn. fold e l. repeat split.
    + apply register_in.
    + apply register_notin.
    + intros Hf. apply register_notin. intros Hin. apply Hf.
      rewrite <- (entry_of_filter t q w). by apply list_elem_of_fmap_2.
    + intros Hq. apply register_notin. intros Hin.
      pose proof (entry_of_is_tuple t q w) as Ht. fold e in Ht.
      destruct e as [s|s o] eqn:E; [done|].
      by apply (Hq s o o).
  - intros ts w Hempty Hnd.
    destruct (add_all_distinct ts w Hnd) as (w' & Hrun & Hf).
    { intros f _. rewrite Hempty. cbn. apply not_elem_of_nil. }
    exists w'. rewrite Hempty in Hf. cbn in Hf. repeat split; [done| |done].
    rewrite <- (length_fmap topic_filter), Hf. by rewrite length_fmap.
Qed.

(** C2 as stated fails: after "a" is registered with QoS 0, registering
    "a" with QoS 1 is no no-op.  The registry holds two entries for the one
    filter. *)
Lemma add_subscription_topic_same_filter_counterexample :
  let a := lit "sensors/a" in
  let w := start (sample_node []) true 0 in
  add_all [(TStr a, QoS0); (TStr a, QoS1)] w
  = Done tt (with_next_oid 2
       (with_node (sample_node [TTuple a {| oid := 0; QoS := QoS0 |};
                                TTuple a {| oid := 1; QoS := QoS1 |}]) w))
  /\ length (remove_dups [a; a]) = 1%nat.
Proof. split; vm_compute; reflexivity. Qed.

(** ** Replay of the registry *)

Section Replay.

Variable T : Transport.

Lemma bare_tuples l : Forall (λ t, is_tuple t = true) l -> bare l = 0%nat.
Proof. induction 1 as [|[s|s o] l Ht Hl IH]; cbn; done. Qed.

(** One round of the loop: the entry at position [i] is subscribed to. *)
Lemma restore_loop_step fuel i w t :
  subscriptions (node w) !! i = Some t ->
  let e := entry_of t QoS0 w in
  restore_loop T (S fuel) i w =
  restore_loop T fuel (S i)
    {| node := set_subscriptions (register e (subscriptions (node w))) (node w);
       client := client w;
       calls := calls w ++ [CSubscribe e];
       log := log w ++ [subscribe_log (subscribe_result T (calls w) e) e];
       metrics := metrics w;
       next_oid := oid_after t w |}.
Proof.
  intros Hi e. cbn [restore_loop]. unfold mbind, M_bind at 1. unfold gets at 1.
  rewrite Hi. unfold mbind, M_bind at 1. by rewrite subscribe_eq.
Qed.

(** The loop ends when the position is past the end of the list. *)
Lemma restore_loop_end fuel i w :
  subscriptions (node w) !! i = None ->
  restore_loop T (S fuel) i w = Done tt w.
Proof.
  intros Hi. cbn [restore_loop]. unfold mbind, M_bind at 1. unfold gets at 1.
  by rewrite Hi.
Qed.

Lemma normalized_tuples k l :
  Forall (λ t, is_tuple t = true) l -> normalized k l = l.
Proof.
  induction 1 as [|[s|s o] l Ht Hl IH]; cbn; [done|done|]. by rewrite IH.
Qed.

(** Over tuples the replay is exact: when the entries from position [i] on
    are tuples, each gets one [subscribe] on the transport, in registry
    order, and the registry is left as it was. *)
Lemma restore_loop_tuples fuel :
  forall i w,
    Forall (λ t, is_tuple t = true) (drop i (subscriptions (node w))) ->
    (length (subscriptions (node w)) - i < fuel)%nat ->
    restore_loop T fuel i w =
    Done tt (with_log
               (log w ++ replay_log T (calls w) (drop i (subscriptions (node w))))
               (with_calls
                  (calls w ++ (CSubscribe <$> drop i (subscriptions (node w))))
                  w)).
Proof.
  induction fuel as [|fuel IH]; intros i w Hall Hlt; [lia|].
  destruct (subscriptions (node w) !! i) as [t|] eqn:Hi.
  - rewrite (restore_loop_step fuel i w t Hi). cbn zeta.
    rewrite (drop_S _ _ _ Hi) in Hall |- *.
    apply Forall_cons in Hall as [Ht Hall].
    assert (Hin : t ∈ subscriptions (node w)) by exact (list_elem_of_lookup_2 _ _ _ Hi).
    pose proof (lookup_lt_Some _ _ _ Hi) as Hlen.
    rewrite (entry_of_tuple t QoS0 w Ht), (register_in _ _ Hin).
    assert (Hs : forall n, set_subscriptions (subscriptions n) n = n) by (by intros []).
    rewrite Hs. rewrite IH; cbn; [|done|lia].
    destruct w as [n c cs lg m k], t; [done|]. cbn.
    unfold with_log, with_calls. cbn. by rewrite <- !app_assoc.
  - rewrite (restore_loop_end fuel i w Hi).
    apply lookup_ge_None in Hi. rewrite (drop_ge _ _ Hi). cbn.
    destruct w as [n c cs lg m k]. cbn.
    unfold with_log, with_calls. cbn. by rewrite !app_nil_r.
Qed.

(** The replay in full.  The registry is [visited ++ rest ++ app]: the
    loop stands at the first entry of [rest], and [app] are the tuples it
    has appended so far.  It subscribes to the entries of [rest] in order,
    each once, appending the tuple of a bare string when the registry does
    not hold it, and then to the tuples it has appended. *)
Lemma restore_loop_grows (rest : list topic) :
  forall visited app fuel w,
    subscriptions (node w) = visited ++ rest ++ app ->
    Forall (λ t, is_tuple t = true) app ->
    (length rest + bare rest + length app < fuel)%nat ->
    exists w' app',
      restore_loop T fuel (length visited) w = Done tt w'
      /\ subscriptions (node w') = visited ++ rest ++ app'
      /\ Forall (λ t, is_tuple t = true) app'
      /\ (bare rest = 0%nat -> app' = app /\ node w' = node w)
      /\ calls w' = calls w ++ (CSubscribe <$> normalized (next_oid w) rest)
                            ++ (CSubscribe <$> app').
Proof.
  induction rest as [|t rest IH]; intros visited app fuel w Hs Happ Hfuel.
  - cbn in Hs, Hfuel. exists
      (with_log (log w ++ replay_log T (calls w) app)
         (with_calls (calls w ++ (CSubscribe <$> app)) w)), app.
    assert (Hd : drop (length visited) (subscriptions (node w)) = app)
      by (rewrite Hs; apply drop_app_length).
    split.
    { rewrite restore_loop_tuples.
      - by rewrite Hd.
      - by rewrite Hd.
      - rewrite Hs, length_app. lia. }
    repeat split; done.
  - destruct fuel as [|fuel]; [lia|].
    assert (Hi : subscriptions (node w) !! length visited = Some t)
      by (rewrite Hs; apply list_lookup_middle; done).
    rewrite (restore_loop_step fuel _ w t Hi). cbn zeta.
    set (e := entry_of t QoS0 w).
    set (w1 := {| node := _ |}).
    assert (He : is_tuple e = true) by apply entry_of_is_tuple.
    assert (Hs1 : subscriptions (node w1) = register e (subscriptions (node w)))
      by (by destruct w as [n c cs lg m k], n).
    assert (Hn : normalized (next_oid w) (t :: rest)
                 = e :: normalized (next_oid w1) rest) by (by destruct t).
    assert (Hc1 : calls w1 = calls w ++ [CSubscribe e]) by done.
    assert (Hv : length (visited ++ [t]) = S (length visited))
      by (rewrite length_app; cbn; lia).
    destruct (decide (e ∈ subscriptions (node w))) as [Hin|Hout].
    + rewrite (register_in _ _ Hin) in Hs1.
      destruct (IH (visited ++ [t]) app fuel w1) as (w' & app' & Hrun & Hs' & Ha' & Hb' & Hc').
      { rewrite Hs1, Hs. by rewrite <- app_assoc. }
      { done. }
      { destruct t; cbn in Hfuel; lia. }
      exists w', app'. rewrite Hv in Hrun.
      split; [exact Hrun|]. split; [by rewrite Hs', <- app_assoc|].
      split; [done|]. split.
      * intros Hb. destruct t as [s|s o]; [done|]. cbn in Hb.
        destruct (Hb' Hb) as [-> ->]. split; [done|].
        unfold w1. cbn [node]. rewrite (register_in _ _ Hin).
        by destruct w as [n c cs lg m k], n.
      * rewrite Hc', Hc1, Hn. cbn. by rewrite <- !app_assoc.
    + rewrite (register_notin _ _ Hout) in Hs1.
      assert (Ht : is_tuple t = false).
      { destruct t as [s|s o]; [done|]. exfalso. apply Hout.
        by apply (list_elem_of_lookup_2 _ (length visited)). }
      destruct (IH (visited ++ [t]) (app ++ [e]) fuel w1) as (w' & app' & Hrun & Hs' & Ha' & Hb' & Hc').
      { rewrite Hs1, Hs. by rewrite <- !app_assoc. }
      { apply Forall_app. split; [done|]. by constructor. }
      { destruct t; [|done]. cbn in Hfuel. rewrite length_app. cbn. lia. }
      exists w', app'. rewrite Hv in Hrun.
      split; [exact Hrun|]. split; [by rewrite Hs', <- app_assoc|].
      split; [done|]. split.
      * intros Hb. by destruct t.
      * rewrite Hc', Hc1, Hn. cbn. by rewrite <- !app_assoc.
Qed.

Lemma normalized_length k l : length (normalized k l) = length l.
Proof.
  revert k. induction l as [|[s|s o] l IH]; intros k; cbn; [done| |];
    by rewrite IH.
Qed.

(** A tuple of the registry is among the entries handed to the transport. *)
Lemma normalized_elem k l e :
  e ∈ l -> is_tuple e = true -> e ∈ normalized k l.
Proof.
  revert k. induction l as [|t l IH]; intros k Hin He.
  - by apply elem_of_nil in Hin.
  - apply elem_of_cons in Hin as [->|Hin].
    + destruct t; [done|]. apply elem_of_cons. by left.
    + destruct t; cbn; apply elem_of_cons; right; by apply IH.
Qed.

End Replay.

(** ** [on_connect], [unsubscribe], [subscribe] *)

Section OnConnect.

Variable T : Transport.

Lemma bare_le_length l : (bare l <= length l)%nat.
Proof. induction l as [|[s|s o] l IH]; cbn; lia. Qed.

Lemma on_connect_eq fuel w :
  on_connect T fuel w =
  restore_loop T fuel 0
    (with_log (log w ++ [(INFO, LogConnected (host (client w))
                                  (client_port (client w)))]) w).
Proof. reflexivity. Qed.

(** On a registry of tuples, [on_connect] replays each entry once, in
    registry order, and leaves the registry as it was. *)
Lemma on_connect_tuples fuel w :
  Forall (λ t, is_tuple t = true) (subscriptions (node w)) ->
  (length (subscriptions (node w)) < fuel)%nat ->
  on_connect T fuel w =
  Done tt (with_log
             (log w ++ (INFO, LogConnected (host (client w))
                                (client_port (client w)))
                    :: replay_log T (calls w) (subscriptions (node w)))
             (with_calls (calls w ++ (CSubscribe <$> subscriptions (node w)))
                w)).
Proof.
  intros Hall Hlt. rewrite on_connect_eq, restore_loop_tuples; cbn; [|done|lia].
  unfold with_log, with_calls. cbn. by rewrite <- app_assoc.
Qed.

(** On any registry, [on_connect] comes to an end, keeps the entries it
    found and subscribes to every tuple among them. *)
Lemma on_connect_total fuel w :
  (2 * length (subscriptions (node w)) < fuel)%nat ->
  exists w' cs,
    on_connect T fuel w = Done tt w'
    /\ subscriptions (node w) `prefix_of` subscriptions (node w')
    /\ calls w' = calls w ++ cs
    /\ (forall e, e ∈ subscriptions (node w) -> is_tuple e = true ->
                  CSubscribe e ∈ cs).
Proof.
  intros Hlt. rewrite on_connect_eq.
  set (w0 := with_log _ w).
  destruct (restore_loop_grows T (subscriptions (node w)) [] [] fuel w0)
    as (w' & app & Hrun & Hs & _ & _ & Hc).
  - by rewrite app_nil_r.
  - constructor.
  - pose proof (bare_le_length (subscriptions (node w))). cbn. lia.
  - eexists w', _. split; [exact Hrun|]. split; [|split; [exact Hc|]].
    + rewrite Hs. by exists app.
    + intros e Hin He. apply elem_of_app. left.
      apply list_elem_of_fmap_2. by apply normalized_elem.
Qed.

(** The registry holds tuples only as long as it is filled through
    [subscribe]. *)
Lemma subscribe_keeps_tuples t q w :
  Forall (λ t, is_tuple t = true) (subscriptions (node w)) ->
  exists w', subscribe T t q w = Done tt w'
    /\ Forall (λ t, is_tuple t = true) (subscriptions (node w')).
Proof.
  intros Hall. eexists. split; [apply subscribe_eq|].
  destruct w as [n c cs lg m k], n. cbn in *.
  apply register_tuples; [apply entry_of_is_tuple|done].
Qed.

End OnConnect.

(** [on_connect] logs the connection and runs the replay once.  With
    enough fuel the replay comes to an end; its calls begin with one
    [subscribe] for every entry the registry holds when it starts, in
    registry order, and go on with the tuples the replay itself appended,
    of which there are none when the registry holds tuples only. *)
Lemma on_connect_replays_registry_first :
  forall (T : Transport) (fuel : nat) (w : World),
    let l := subscriptions (node w) in
    (2 * length l < fuel)%nat ->
    on_connect T fuel w
    = restore_subscriptions T fuel
        (with_log (log w ++ [(INFO, LogConnected (host (client w))
                                      (client_port (client w)))]) w)
    /\ exists w' app,
         on_connect T fuel w = Done tt w'
         /\ subscriptions (node w') = l ++ app
         /\ calls w' = calls w ++ (CSubscribe <$> normalized (next_oid w) l)
                               ++ (CSubscribe <$> app)
         /\ length (normalized (next_oid w) l) = length l
         /\ (Forall (λ t, is_tuple t = true) l ->
               app = [] /\ node w' = node w
               /\ calls w' = calls w ++ (CSubscribe <$> l)).
Proof.
  intros T fuel w l Hfuel. split; [reflexivity|].
  rewrite on_connect_eq. set (w0 := with_log _ w).
  destruct (restore_loop_grows T l [] [] fuel w0) as (w' & app & Hrun & Hs & _ & Hb & Hc).
  - by rewrite app_nil_r.
  - constructor.
  - pose proof (bare_le_length l). cbn. lia.
  - exists w', app. split; [exact Hrun|]. split; [exact Hs|].
    split; [exact Hc|]. split.
    + apply normalized_length.
    + intros Hall. destruct (Hb (bare_tuples l Hall)) as [-> Hn].
      repeat split; [exact Hn|].
      rewrite Hc, (normalized_tuples _ l Hall). cbn. by rewrite app_nil_r.
Qed.

(** C1: the failing input.  A node built with [subscriptions=["a"]]: line
    123 keeps the list as it is given, so the registry holds one entry, the
    bare string.  On the connection event the replay normalises the string,
    line 207 appends the tuple to the list line 211 is iterating over, and
    the loop meets it: the one entry of the registry receives two
    [subscribe] calls, both for the same tuple, and the registry ends with
    two entries. *)
Theorem on_connect_constructor_registry_subscribed_twice :
  forall (T : Transport) (broker_config : MQTTBrokerConfig)
         (name_arg : option str) (c : N) (id : str) (type_arg : option str)
         (f : str) (ids : nat) (w : World) (k : nat),
    exists self : MQTTNode,
      __init__ MQTTNode_class broker_config name_arg (c :: id) type_arg
        (Some [TStr f]) ids = (Ok self, ids)
      /\ subscriptions self = [TStr f]
      /\ length (subscriptions self) = 1%nat
      /\ let e := TTuple f {| oid := next_oid w; QoS := QoS0 |} in
         exists w',
           on_connect T (3 + k) (with_node self w) = Done tt w'
           /\ calls w' = calls w ++ [CSubscribe e; CSubscribe e]
           /\ subscriptions (node w') = [TStr f; e].
Proof.
  intros T cfg name_arg c id type_arg f ids w k.
  unfold __init__. cbn [truthy]. eexists.
  split; [reflexivity|]. split; [reflexivity|]. split; [reflexivity|].
  cbn zeta. set (e := TTuple f _). set (self := Build_MQTTNode _ _ _ _ _ _ _ _ _ _ _ _).
  rewrite on_connect_eq.
  change (3 + k)%nat with (S (S (S k))).
  rewrite (restore_loop_step T _ 0 _ (TStr f)) by reflexivity.
  cbn [node calls log client metrics next_oid with_log with_node
       entry_of oid_after subscriptions self].
  fold e.
  rewrite (register_notin e [TStr f]).
  2:{ intros Hin. apply list_elem_of_singleton in Hin. discriminate. }
  rewrite (restore_loop_step T _ 1 _ e) by reflexivity.
  cbn [node calls log client metrics next_oid entry_of oid_after e
       subscriptions set_subscriptions].
  fold e.
  rewrite (register_in e ([TStr f] ++ [e])).
  2:{ apply elem_of_app. right. by apply list_elem_of_singleton. }
  rewrite restore_loop_end by reflexivity.
  eexists. split; [reflexivity|]. cbn. split; [|reflexivity].
  by rewrite <- app_assoc.
Qed.

(** X1: a registry that holds a bare string, as a node built with
    [subscriptions=["a"]] has it: the replay normalises the string, appends
    the tuple to the list it is iterating over and so meets it again.  The
    one entry of the registry is followed by a second [subscribe] for the
    same filter, and the registry has grown by one. *)
Lemma on_connect_bare_string_subscribed_twice :
  forall (T : Transport) (f : str) (w : World) (k : nat),
    let w0 := with_node (set_subscriptions [TStr f] (node w)) w in
    let e := TTuple f {| oid := next_oid w; QoS := QoS0 |} in
    let c1 := calls w ++ [CSubscribe e] in
    on_connect T (3 + k) w0 =
    Done tt {| node := set_subscriptions [TStr f; e] (node w);
               client := client w;
               calls := calls w ++ [CSubscribe e; CSubscribe e];
               log := log w ++ [(INFO, LogConnected (host (client w))
                                         (client_port (client w)));
                                subscribe_log (subscribe_result T (calls w) e) e;
                                subscribe_log (subscribe_result T c1 e) e];
               metrics := metrics w;
               next_oid := S (next_oid w) |}.
Proof.
  intros T f w k w0 e c1. rewrite on_connect_eq.
  assert (Hs : forall n l, subscriptions (set_subscriptions l n) = l)
    by (by intros []).
  change (3 + k)%nat with (S (S (S k))).
  (* first round: the bare string *)
  rewrite (restore_loop_step T _ 0 _ (TStr f)) by reflexivity.
  cbn [node calls log client metrics next_oid with_log w0 with_node
       entry_of oid_after].
  fold e. rewrite Hs.
  rewrite (register_notin e [TStr f]).
  2:{ intros Hin. apply list_elem_of_singleton in Hin. discriminate. }
  (* second round: the tuple the first round appended *)
  rewrite (restore_loop_step T _ 1 _ e) by reflexivity.
  cbn [node calls log client metrics next_oid entry_of oid_after e].
  fold e. fold c1. rewrite Hs.
  rewrite (register_in e ([TStr f] ++ [e])).
  2:{ apply elem_of_app. right. by apply list_elem_of_singleton. }
  (* third round: the end of the list *)
  rewrite restore_loop_end by reflexivity.
  destruct w as [n c cs lg m j], n. cbn. by rewrite <- !app_assoc.
Qed.

(** C6: [unsubscribe] hands the request to the transport and changes
    nothing else, the registry included; so the next [on_connect] subscribes
    again to every tuple of the registry, the one unsubscribed among them. *)
Theorem unsubscribe_leaves_registry :
  forall (T : Transport) (t : unsub_topic) (w : World),
    unsubscribe T t w
    = Done (unsubscribe_result T (calls w) t)
           (with_calls (calls w ++ [CUnsubscribe t]) w)
    /\ (forall (fuel : nat) (e : topic),
          e ∈ subscriptions (node w) -> is_tuple e = true ->
          (2 * length (subscriptions (node w)) < fuel)%nat ->
          exists w' cs,
            (unsubscribe T t;; on_connect T fuel) w = Done tt w'
            /\ calls w' = calls w ++ CUnsubscribe t :: cs
            /\ CSubscribe e ∈ cs
            /\ e ∈ subscriptions (node w')).
Proof.
  intros T t w. split; [reflexivity|].
  intros fuel e Hin He Hlt.
  unfold mbind, M_bind, unsubscribe, client_unsubscribe.
  set (w1 := with_calls _ w).
  destruct (on_connect_total T fuel w1 Hlt) as (w' & cs & Hrun & Hp & Hcs & Hall).
  exists w', cs. split; [exact Hrun|]. split; [|split].
  - rewrite Hcs. cbn. by rewrite <- app_assoc.
  - by apply Hall.
  - destruct Hp as [l' ->]. apply elem_of_app. by left.
Qed.

(** C10: [subscribe] registers its topic whatever the transport answers.
    The registration runs once the result is logged, and on the result code
    4 the record is the error; the entry is in the registry afterwards,
    appended when it was not there, and the registry is the same for every
    result code.  The next [on_connect] subscribes to the entry again. *)
Theorem subscribe_registers_whatever_the_result :
  forall (T : Transport) (t : topic) (q : qos) (w : World),
    let e := entry_of t q w in
    let rc := subscribe_result T (calls w) e in
    exists w',
      subscribe T t q w = Done tt w'
      /\ subscribe T t q w
         = add_subscription_topic e q
             {| node := node w; client := client w;
                calls := calls w ++ [CSubscribe e];
                log := log w ++ [subscribe_log rc e];
                metrics := metrics w; next_oid := oid_after t w |}
      /\ (rc = 4 -> log w' = log w ++ [(ERROR, LogSubscribeFailed e 4)])
      /\ subscriptions (node w') = register e (subscriptions (node w))
      /\ e ∈ subscriptions (node w')
      /\ (e ∉ subscriptions (node w) ->
            subscriptions (node w') = subscriptions (node w) ++ [e])
      /\ (forall fuel,
            (2 * length (subscriptions (node w')) < fuel)%nat ->
            exists w'' cs,
              on_connect T fuel w' = Done tt w''
              /\ calls w'' = calls w' ++ cs
              /\ CSubscribe e ∈ cs).
Proof.
  intros T t q w e rc. eexists. split; [apply subscribe_eq|].
  assert (Hs : forall n l, subscriptions (set_subscriptions l n) = l)
    by (by intros []).
  cbn [node log]. fold e rc. rewrite Hs. repeat split.
  - rewrite subscribe_eq, add_subscription_topic_eq. cbn. fold e rc.
    pose proof (entry_of_is_tuple t q w) as Ht. fold e in Ht.
    rewrite (entry_of_tuple e q _ Ht).
    destruct t, e; try done.
  - intros Hrc. unfold subscribe_log. by rewrite Hrc.
  - apply register_elem.
  - apply register_notin.
  - intros fuel Hlt.
    set (w' := {| node := _ |}) in *.
    destruct (on_connect_total T fuel w') as (w'' & cs & Hrun & _ & Hcs & Hall).
    { subst w'. cbn [node]. by rewrite Hs. }
    exists w'', cs. repeat split; [done|done|].
    apply Hall; [|apply entry_of_is_tuple].
    subst w'. cbn [node]. rewrite Hs. apply register_elem.
Qed.

(** ** [ensure_connection] *)

Section EnsureConnection.

Variable T : Transport.

Lemma reconnect_loop_connected fuel r w :
  connected (client w) = true -> reconnect_loop T (S fuel) r w = Done tt w.
Proof.
  intros Hc. cbn [reconnect_loop]. unfold is_connected. unfold_monad.
  by rewrite Hc.
Qed.

(** Entered on a connected client, the method returns at its first test. *)
Lemma ensure_connection_connected fuel w :
  connected (client w) = true -> ensure_connection T fuel w = Done tt w.
Proof.
  intros Hc. unfold ensure_connection, is_connected. unfold_monad.
  by rewrite Hc.
Qed.

(** One round of the loop, from a disconnected client: a reconnect that
    returns or is refused is followed by the log record and the sleep, and
    the loop goes on; any other error leaves the method. *)
Lemma reconnect_loop_round fuel r w :
  connected (client w) = false ->
  0 <= node_timeout (node w) ->
  reconnect_loop T (S fuel) r w =
  match reconnect_outcome T (attempts (client w)) with
  | Failed =>
      Raised OSError
        (with_client
           {| host := host (client w); client_port := client_port (client w);
              connected := false; attempts := S (attempts (client w)) |}
           (with_calls (calls w ++ [CReconnect]) w))
  | _ => reconnect_loop T fuel (r + 1) (after_round T r w)
  end.
Proof.
  intros Hc Ht. cbn [reconnect_loop]. unfold is_connected, try_except,
    client_reconnect, time_sleep, after_round. unfold_monad.
  rewrite Hc. cbn.
  destruct (Z.ltb_spec (node_timeout (node w)) 0) as [|_]; [lia|].
  destruct (reconnect_outcome T (attempts (client w))); cbn;
    try (case_decide; [|done]); cbn; by rewrite <- ?app_assoc.
Qed.

(** The loop ends as soon as an attempt is accepted, after as many refused
    or unanswered attempts as the broker cares to make. *)
Lemma reconnect_loop_connects n :
  forall fuel r w,
    connected (client w) = false ->
    0 <= node_timeout (node w) ->
    (forall j, (j < n)%nat ->
       stays_down (reconnect_outcome T (attempts (client w) + j)) = true) ->
    reconnect_outcome T (attempts (client w) + n) = Established ->
    (n + 2 <= fuel)%nat ->
    reconnect_loop T fuel r w =
    Done tt
      {| node := node w;
         client :=
           {| host := host (client w); client_port := client_port (client w);
              connected := true;
              attempts := (attempts (client w) + S n)%nat |};
         calls := calls w ++ retry_calls (node_timeout (node w)) (S n);
         log := log w ++ retry_log T (node w) (attempts (client w)) r (S n);
         metrics := metrics w;
         next_oid := next_oid w |}.
Proof.
  induction n as [|n IH]; intros fuel r w Hc Ht Hdown Hup Hfuel.
  - destruct fuel as [|[|fuel]]; [lia|lia|].
    rewrite Nat.add_0_r in Hup.
    rewrite reconnect_loop_round by done. rewrite Hup.
    rewrite reconnect_loop_connected by (unfold after_round; cbn; by rewrite Hup).
    unfold after_round. rewrite Hup. cbn. by rewrite Nat.add_1_r.
  - destruct fuel as [|fuel]; [lia|].
    pose proof (Hdown 0%nat ltac:(lia)) as H0. rewrite Nat.add_0_r in H0.
    rewrite reconnect_loop_round by done.
    assert (Hw1 : connected (client (after_round T r w)) = false).
    { unfold after_round. cbn.
      by destruct (reconnect_outcome T (attempts (client w))). }
    assert (Hgo : match reconnect_outcome T (attempts (client w)) with
                  | Failed => Raised OSError
                      (with_client
                         {| host := host (client w);
                            client_port := client_port (client w);
                            connected := false;
                            attempts := S (attempts (client w)) |}
                         (with_calls (calls w ++ [CReconnect]) w))
                  | _ => reconnect_loop T fuel (r + 1) (after_round T r w)
                  end = reconnect_loop T fuel (r + 1) (after_round T r w)).
    { by destruct (reconnect_outcome T (attempts (client w))). }
    rewrite Hgo. rewrite IH; [|done|done| | |lia].
    + unfold after_round. cbn.
      rewrite <- !app_assoc. cbn.
      by replace (S (attempts (client w) + S n))
        with (attempts (client w) + S (S n))%nat by lia.
    + intros j Hj. unfold after_round. cbn.
      replace (S (attempts (client w) + j))
        with (attempts (client w) + S j)%nat by lia.
      apply Hdown. lia.
    + unfold after_round. cbn.
      by replace (S (attempts (client w) + n))
        with (attempts (client w) + S n)%nat by lia.
Qed.

(** While the broker accepts no attempt the loop does not end, whatever
    number of rounds it is given. *)
Lemma reconnect_loop_never fuel :
  forall r w,
    connected (client w) = false ->
    0 <= node_timeout (node w) ->
    (forall j, stays_down (reconnect_outcome T (attempts (client w) + j)) = true) ->
    reconnect_loop T fuel r w = OutOfFuel.
Proof.
  induction fuel as [|fuel IH]; intros r w Hc Ht Hdown; [done|].
  pose proof (Hdown 0%nat) as H0. rewrite Nat.add_0_r in H0.
  rewrite reconnect_loop_round by done.
  destruct (reconnect_outcome T (attempts (client w))) eqn:E; try done.
  - apply IH; [by unfold after_round; cbn; rewrite E|done|].
    intros j. unfold after_round. cbn.
    replace (S (attempts (client w) + j))
      with (attempts (client w) + S j)%nat by lia. apply Hdown.
  - apply IH; [by unfold after_round; cbn; rewrite E|done|].
    intros j. unfold after_round. cbn.
    replace (S (attempts (client w) + j))
      with (attempts (client w) + S j)%nat by lia. apply Hdown.
Qed.

(** The loop does not read [reconnect_attempts]: with another value of it
    the node does the same, step for step. *)
Lemma reconnect_loop_ignores_attempts fuel :
  forall r a w,
    reconnect_loop T fuel r (configure a w)
    = outcome_map (configure a) (reconnect_loop T fuel r w).
Proof.
  induction fuel as [|fuel IH]; intros r a w; [done|].
  cbn [reconnect_loop]. unfold is_connected, try_except, client_reconnect,
    time_sleep. unfold_monad.
  destruct w as [n [h p up k] cs lg m j]. unfold configure in *. cbn.
  destruct up; [done|]. cbn.
  destruct (reconnect_outcome T k); cbn;
    try (case_decide; [|done]); cbn; try done;
    (destruct (node_timeout n <? 0); [done|]); cbn;
    by rewrite <- (IH _ a).
Qed.

(** The loop touches neither the node, nor the counters, nor the objects. *)
Lemma reconnect_loop_frame fuel :
  forall r w w',
    final_world (reconnect_loop T fuel r w) = Some w' ->
    node w' = node w /\ metrics w' = metrics w /\ next_oid w' = next_oid w.
Proof.
  induction fuel as [|fuel IH]; intros r w w'; [done|].
  cbn [reconnect_loop]. unfold is_connected, try_except, client_reconnect,
    time_sleep. unfold_monad.
  destruct w as [n [h p up k] cs lg m j]. cbn.
  destruct up; [by intros [= <-]|]. cbn.
  destruct (reconnect_outcome T k); cbn;
    try (case_decide; [|done]); cbn; try (by intros [= <-]);
    (destruct (node_timeout n <? 0); [by intros [= <-]|]); cbn;
    intros Hw; by apply IH in Hw.
Qed.

End EnsureConnection.

(** A reconnect that fails with another error than a refusal is not
    caught: the error leaves [ensure_connection]. *)
Lemma ensure_connection_other_error (T : Transport) fuel w :
  connected (client w) = false ->
  0 <= node_timeout (node w) ->
  reconnect_outcome T (attempts (client w)) = Failed ->
  exists w', ensure_connection T (S fuel) w = Raised OSError w'.
Proof.
  intros Hc Ht Hf. unfold ensure_connection, is_connected. unfold_monad.
  rewrite Hc, reconnect_loop_round, Hf by done. by eexists.
Qed.

(** C4: when the client reports itself connected, [ensure_connection]
    returns at once, whatever number of rounds its loop is allowed: nothing
    is called on the transport, nothing is slept, and the state is the one
    it was entered in. *)
Theorem ensure_connection_connected_noop :
  forall (T : Transport) (fuel : nat) (w : World),
    connected (client w) = true ->
    ensure_connection T fuel w = Done tt w
    /\ (forall w', final_world (ensure_connection T fuel w) = Some w' ->
                   calls w' = calls w).
Proof.
  intros T fuel w Hc.
  pose proof (ensure_connection_connected T fuel w Hc) as H.
  split; [exact H|]. rewrite H. by intros w' [= <-].
Qed.

Lemma ensure_connection_connected_noop_witness :
  let T := sample_transport 5 0 in
  let w := start (sample_node [TStr (lit "sensors/a")]) true 0 in
  connected (client w) = true
  /\ ensure_connection T 0 w = Done tt w.
Proof.
  intros T w. split; [reflexivity|].
  exact (proj1 (ensure_connection_connected_noop T 0 w eq_refl)).
Defined.

(** C3: entered while the client is disconnected, [ensure_connection]
    tries to reconnect until the client is connected.  A refused attempt is
    logged as an error and does not leave the method; every attempt, the
    accepted one too, is followed by a sleep of [timeout] seconds.  The
    number of attempts has no bound: when the broker accepts only after [n]
    refused or unanswered attempts, the method makes [n + 1] attempts and
    returns, for every [n]; while the broker accepts none, the method does
    not end; and [reconnect_attempts] has no part in any of it. *)
Theorem ensure_connection_retries_without_bound :
  forall (T : Transport) (w : World),
    connected (client w) = false ->
    0 <= node_timeout (node w) ->
    let k := attempts (client w) in
    (forall n fuel,
       (forall j, (j < n)%nat ->
          stays_down (reconnect_outcome T (k + j)) = true) ->
       reconnect_outcome T (k + n) = Established ->
       (n + 2 <= fuel)%nat ->
       ensure_connection T fuel w =
       Done tt
         {| node := node w;
            client :=
              {| host := host (client w);
                 client_port := client_port (client w);
                 connected := true;
                 attempts := (k + S n)%nat |};
            calls := calls w ++ retry_calls (node_timeout (node w)) (S n);
            log := log w ++ retry_log T (node w) k 1 (S n);
            metrics := metrics w;
            next_oid := next_oid w |})
    /\ ((forall j, stays_down (reconnect_outcome T (k + j)) = true) ->
        forall fuel, ensure_connection T fuel w = OutOfFuel)
    /\ (forall fuel a,
          ensure_connection T fuel (configure a w)
          = outcome_map (configure a) (ensure_connection T fuel w)).
Proof.
  intros T w Hc Ht k.
  assert (He : forall fuel, ensure_connection T fuel w = reconnect_loop T fuel 1 w).
  { intros fuel. unfold ensure_connection, is_connected. unfold_monad.
    by rewrite Hc. }
  split; [|split].
  - intros n fuel Hdown Hup Hfuel. rewrite He.
    by apply reconnect_loop_connects.
  - intros Hdown fuel. rewrite He. by apply reconnect_loop_never.
  - intros fuel a. rewrite He.
    rewrite <- reconnect_loop_ignores_attempts.
    unfold ensure_connection, is_connected. unfold_monad.
    change (connected (client (configure a w))) with (connected (client w)).
    by rewrite Hc.
Qed.

(** Five refusals, two more than the node's [reconnect_attempts] of 3,
    and then an accepted attempt: six attempts, six sleeps. *)
Lemma ensure_connection_retries_witness :
  let T := sample_transport 5 0 in
  let w := start (sample_node []) false 0 in
  let refused := (ERROR, LogReconnectFailed (lit "broker.local") 1883) in
  connected (client w) = false
  /\ 0 <= node_timeout (node w)
  /\ node_reconnect_attempts (node w) = 3
  /\ ensure_connection T 7 w =
     Done tt
       {| node := node w;
          client := {| host := lit "broker.local"; client_port := 1883;
                       connected := true; attempts := 6 |};
          calls := [CReconnect; CSleep 5; CReconnect; CSleep 5;
                    CReconnect; CSleep 5; CReconnect; CSleep 5;
                    CReconnect; CSleep 5; CReconnect; CSleep 5];
          log := [refused; (INFO, LogRetry 2 5); refused; (INFO, LogRetry 3 5);
                  refused; (INFO, LogRetry 4 5); refused; (INFO, LogRetry 5 5);
                  refused; (INFO, LogRetry 6 5); (INFO, LogRetry 7 5)];
          metrics := no_metrics;
          next_oid := 0 |}.
Proof.
  intros T w refused.
  split; [reflexivity|]. split; [discriminate|]. split; [reflexivity|].
  refine (proj1 (ensure_connection_retries_without_bound T w eq_refl _) 5%nat 7%nat _ eq_refl _).
  - discriminate.
  - intros j Hj. do 5 (destruct j as [|j]; [reflexivity|]). lia.
  - lia.
Defined.

(** ** [publish] and the counters *)

Section Publish.

Variable T : Transport.

Lemma value_inc_same l amount c : value (inc l amount c) l = (value c l + amount)%N.
Proof. unfold value, inc. by rewrite lookup_insert_eq. Qed.

Lemma value_inc_other l l' amount c :
  l <> l' -> value (inc l amount c) l' = value c l'.
Proof. intros Hne. unfold value, inc. by rewrite lookup_insert_ne. Qed.

Lemma restore_loop_frame fuel :
  forall i w w',
    final_world (restore_loop T fuel i w) = Some w' -> metrics w' = metrics w.
Proof.
  induction fuel as [|fuel IH]; intros i w w'; [done|].
  destruct (subscriptions (node w) !! i) as [t|] eqn:Hi.
  - rewrite (restore_loop_step T fuel i w t Hi). cbn zeta.
    intros Hw. by apply IH in Hw.
  - rewrite (restore_loop_end T fuel i w Hi). by intros [= <-].
Qed.

Lemma ensure_connection_frame fuel w w' :
  final_world (ensure_connection T fuel w) = Some w' ->
  node w' = node w /\ metrics w' = metrics w /\ next_oid w' = next_oid w.
Proof.
  unfold ensure_connection, is_connected. unfold_monad.
  destruct (connected (client w)); [by intros [= <-]|].
  apply reconnect_loop_frame.
Qed.

Lemma publish_eq fuel t p q retain w :
  publish T fuel t p q retain w =
  match ensure_connection T fuel w with
  | Done _ w1 =>
      Done (publish_result T (calls w1))
           (with_calls (calls w1 ++ [CPublish t p q retain]) w1)
  | Raised e w1 => Raised e w1
  | OutOfFuel => OutOfFuel
  end.
Proof. reflexivity. Qed.

Lemma publish_frame fuel t p q retain w w' :
  final_world (publish T fuel t p q retain w) = Some w' ->
  metrics w' = metrics w.
Proof.
  rewrite publish_eq.
  destruct (ensure_connection T fuel w) as [[] w1|e w1|] eqn:E; [| |done].
  - intros [= <-]. cbn.
    by apply (ensure_connection_frame fuel w w1); rewrite E.
  - intros [= <-]. by apply (ensure_connection_frame fuel w w1); rewrite E.
Qed.

(** No method and no callback but [on_publish] moves the sent-message
    counter. *)
Lemma sent_counter_frame fuel op w w' :
  is_on_publish op = false ->
  final_world (run T fuel op w) = Some w' ->
  node_messages_sent_count (metrics w') = node_messages_sent_count (metrics w).
Proof.
  intros Hop. destruct op; try done; cbn [run].
  - rewrite subscribe_eq. by intros [= <-].
  - by intros [= <-].
  - rewrite add_subscription_topic_eq. by intros [= <-].
  - intros Hw. by rewrite (restore_loop_frame _ _ _ _ Hw).
  - intros Hw. by destruct (ensure_connection_frame _ _ _ Hw) as (_ & -> & _).
  - intros Hw. rewrite <- (publish_frame fuel t p q retain w w'); [done|].
    unfold mbind, M_bind in Hw.
    by destruct (publish T fuel t p q retain w).
  - by intros [= <-].
  - rewrite on_connect_eq. intros Hw. by rewrite (restore_loop_frame _ _ _ _ Hw).
  - by intros [= <-].
  - by intros [= <-].
  - unfold on_message, inc_messages_received, inc_bytes_received.
    unfold_monad. destruct (Utf8.decode (payload message)); by intros [= <-].
Qed.

End Publish.

(** C5: [publish] runs [ensure_connection] first and hands the message to
    the transport only when that has returned; an error of
    [ensure_connection] leaves [publish] with nothing published.  No
    counter moves during [publish]; on a connected client it is the one
    call on the transport.  The sent-message counter moves in [on_publish]
    alone, by one for the node's labels, and no other method or callback
    moves it. *)
Theorem publish_counts_on_acknowledgment_only :
  forall (T : Transport) (fuel : nat) (t : str) (p : bytes) (q : qos)
         (retain : bool) (w : World),
    publish T fuel t p q retain w
    = match ensure_connection T fuel w with
      | Done _ w1 =>
          Done (publish_result T (calls w1))
               (with_calls (calls w1 ++ [CPublish t p q retain]) w1)
      | Raised e w1 => Raised e w1
      | OutOfFuel => OutOfFuel
      end
    /\ (forall w', final_world (publish T fuel t p q retain w) = Some w' ->
                   metrics w' = metrics w)
    /\ (connected (client w) = true ->
        publish T fuel t p q retain w
        = Done (publish_result T (calls w))
               (with_calls (calls w ++ [CPublish t p q retain]) w))
    /\ (forall mid, exists w',
          on_publish mid w = Done tt w'
          /\ value (node_messages_sent_count (metrics w')) (labels_of (node w))
             = (value (node_messages_sent_count (metrics w))
                  (labels_of (node w)) + 1)%N
          /\ (forall l, l <> labels_of (node w) ->
                value (node_messages_sent_count (metrics w')) l
                = value (node_messages_sent_count (metrics w)) l)
          /\ node_messages_received_count (metrics w')
             = node_messages_received_count (metrics w)
          /\ node_bytes_received_count (metrics w')
             = node_bytes_received_count (metrics w)
          /\ node_bytes_sent_count (metrics w')
             = node_bytes_sent_count (metrics w)
          /\ calls w' = calls w /\ node w' = node w)
    /\ (forall op w',
          is_on_publish op = false ->
          final_world (run T fuel op w) = Some w' ->
          node_messages_sent_count (metrics w')
          = node_messages_sent_count (metrics w)).
Proof.
  intros T fuel t p q retain w. split; [apply publish_eq|].
  split; [apply publish_frame|]. split; [|split].
  - intros Hc. rewrite publish_eq.
    by rewrite (ensure_connection_connected T fuel w Hc).
  - intros mid. eexists. split; [reflexivity|]. cbn. repeat split.
    + apply value_inc_same.
    + intros l Hl. by apply value_inc_other.
  - intros op w'. apply sent_counter_frame.
Qed.

(** ** [on_message] *)

Lemma shorten_data_length (s : str) : (length (shorten_data s 75) <= 78)%nat.
Proof.
  destruct (decide (length (strip s) <= 75)%nat) as [H|H].
  - rewrite shorten_data_short_eq by done. lia.
  - rewrite shorten_data_long_eq by lia.
    rewrite length_app, length_take.
    change (length (lit "...")) with 3%nat. lia.
Qed.

(** X2: every message moves the two receive counters, by one and by the length
    of the payload in bytes, for the labels of the node and for no others;
    a payload that decodes is then logged in its shortened form, of 78
    characters at most. *)
Lemma on_message_counts (message : MQTTMessage) (w : World) :
  exists w',
    final_world (on_message message w) = Some w'
    /\ value (node_messages_received_count (metrics w')) (labels_of (node w))
       = (value (node_messages_received_count (metrics w))
            (labels_of (node w)) + 1)%N
    /\ value (node_bytes_received_count (metrics w')) (labels_of (node w))
       = (value (node_bytes_received_count (metrics w)) (labels_of (node w))
          + N.of_nat (length (payload message)))%N
    /\ (forall l, l <> labels_of (node w) ->
          value (node_messages_received_count (metrics w')) l
          = value (node_messages_received_count (metrics w)) l
          /\ value (node_bytes_received_count (metrics w')) l
             = value (node_bytes_received_count (metrics w)) l)
    /\ (forall text, Utf8.decode (payload message) = Some text ->
          on_message message w = Done tt w'
          /\ log w' = log w ++ [(INFO, LogReceived (msg_topic message)
                                         (shorten_data text 75)
                                         (msg_qos message))]
          /\ (length (shorten_data text 75) <= 78)%nat).
Proof.
  unfold on_message, inc_messages_received, inc_bytes_received. unfold_monad.
  destruct (Utf8.decode (payload message)) as [text|]; eexists;
    (split; [reflexivity|]); cbn; repeat split;
    try apply value_inc_same; try (by apply value_inc_other); try done;
    rename select (Some _ = Some _) into H.
  - by injection H as ->.
  - apply shorten_data_length.
Qed.

(** C7 at a payload that is not UTF-8, the single byte 0xFF: the two
    counters are moved, then decoding the payload for the log raises
    [UnicodeDecodeError]; nothing is logged. *)
Theorem on_message_undecodable_payload :
  forall (t : str) (q : qos) (w : World),
    let message := {| msg_topic := t; payload := [xff]; msg_qos := q |} in
    exists w',
      on_message message w = Raised UnicodeDecodeError w'
      /\ log w' = log w
      /\ value (node_messages_received_count (metrics w')) (labels_of (node w))
         = (value (node_messages_received_count (metrics w))
              (labels_of (node w)) + 1)%N
      /\ value (node_bytes_received_count (metrics w')) (labels_of (node w))
         = (value (node_bytes_received_count (metrics w))
              (labels_of (node w)) + 1)%N.
Proof.
  intros t q w message.
  unfold on_message, inc_messages_received, inc_bytes_received. unfold_monad.
  change (Utf8.decode (payload message)) with (@None str).
  eexists. split; [reflexivity|]. cbn. repeat split; apply value_inc_same.
Qed.

(** ** Construction *)

(** C8 at a construction without [node_id]: [_get_id] reads
    [self.node_type] at line 120, one line before [__init__] assigns it,
    and class [MQTTNode] declares no such attribute.  The construction
    raises [AttributeError]; the counter is not advanced. *)
Theorem init_without_node_id_raises :
  forall (broker_config : MQTTBrokerConfig) (name_arg node_type_arg : option str)
         (subscriptions_arg : option (list topic)) (_ids : nat),
    __init__ MQTTNode_class broker_config name_arg [] node_type_arg
      subscriptions_arg _ids
    = (Err AttributeError, _ids)
    /\ _get_id MQTTNode_class None _ids = (Err AttributeError, _ids).
Proof.
  intros broker_config name_arg node_type_arg subscriptions_arg _ids.
  unfold __init__, _get_id, getattr_node_type. cbn. by split.
Qed.

(** X3: an identifier given by the caller is used as it is, and the counter
    is left alone. *)
Lemma init_explicit_node_id (cls : pyclass) (broker_config : MQTTBrokerConfig)
    (name_arg : option str) (node_id_arg : str) (node_type_arg : option str)
    (subscriptions_arg : option (list topic)) (_ids : nat) :
  truthy node_id_arg = true ->
  exists self,
    __init__ cls broker_config name_arg node_id_arg node_type_arg
      subscriptions_arg _ids = (Ok self, _ids)
    /\ node_id self = node_id_arg
    /\ client_id self = node_id_arg.
Proof.
  intros Hid. unfold __init__. rewrite Hid. by eexists.
Qed.

Lemma init_explicit_node_id_witness :
  truthy (lit "n1") = true
  /\ exists self,
       __init__ MQTTNode_class sample_config None (lit "n1") None
         (Some [TStr (lit "sensors/a")]) _ids_start = (Ok self, _ids_start)
       /\ node_id self = lit "n1"
       /\ client_id self = lit "n1".
Proof.
  split; [reflexivity|].
  exact (init_explicit_node_id MQTTNode_class sample_config None (lit "n1")
           None (Some [TStr (lit "sensors/a")]) _ids_start eq_refl).
Defined.

(** In a class that declares [node_type], the generated identifier is that
    class attribute, an underscore and the value of the shared counter,
    which moves on by one: two constructions in a row, from the start of
    the counter, are numbered 0 and 1. *)
Lemma init_generated_id_in_subclass (cls : pyclass) (class_type : str)
    (broker_config : MQTTBrokerConfig) (name_arg node_type_arg : option str)
    (subscriptions_arg : option (list topic)) (_ids : nat) :
  class_node_type cls = Some class_type ->
  exists self,
    __init__ cls broker_config name_arg [] node_type_arg subscriptions_arg _ids
    = (Ok self, S _ids)
    /\ node_id self = class_type ++ lit "_" ++ str_of_nat _ids.
Proof.
  intros Hcls. unfold __init__, _get_id, getattr_node_type. cbn.
  rewrite Hcls. by eexists.
Qed.

(** ** The theorems at sample values *)

(** A padded line of 80 characters is cut after its stripped form's first
    75, and a short line is returned stripped, a second pass changing
    nothing. *)
Lemma shorten_data_strip_spec_witness :
  let long := 32%N :: replicate 80 97%N ++ [10%N] in
  let short := lit "  21.5 C " in
  ((75 < length (strip long))%nat /\ (length short <= 75)%nat)
  /\ (shorten_data long 75 = replicate 75 97%N ++ lit "..."
      /\ length (shorten_data long 75) = 78%nat)
  /\ shorten_data (shorten_data short 75) 75 = shorten_data short 75.
Proof.
  intros long short.
  assert (Hlong : (75 < length (strip long))%nat) by (vm_compute; lia).
  assert (Hshort : (length short <= 75)%nat) by (vm_compute; lia).
  split; [by split|]. split.
  - exact (proj1 (proj2 (shorten_data_strip_spec long)) Hlong).
  - exact (proj1 (shorten_data_strip_spec short) Hshort).
Defined.

(** Three calls with three filters on an empty registry: three entries. *)
Lemma add_subscription_topic_compares_entries_witness :
  let o := {| oid := 7; QoS := QoS2 |} in
  let ts := [(TStr (lit "sensors/a"), QoS0); (TTuple (lit "sensors/b") o, QoS0);
             (TStr (lit "sensors/c"), QoS1)] in
  let w := start (sample_node []) true 8 in
  NoDup (topic_filter ∘ fst <$> ts)
  /\ exists w',
       add_all ts w = Done tt w'
       /\ length (subscriptions (node w')) = 3%nat
       /\ topic_filter <$> subscriptions (node w')
          = [lit "sensors/a"; lit "sensors/b"; lit "sensors/c"].
Proof.
  intros o ts w.
  assert (Hnd : NoDup (topic_filter ∘ fst <$> ts)).
  { apply (bool_decide_unpack _). vm_compute. exact I. }
  split; [exact Hnd|].
  exact (proj2 add_subscription_topic_compares_entries ts w eq_refl Hnd).
Defined.

(** A subscription that was unsubscribed is subscribed again by the next
    [on_connect]. *)
Lemma unsubscribe_leaves_registry_witness :
  let T := sample_transport 0 0 in
  let e := TTuple (lit "sensors/a") {| oid := 0; QoS := QoS1 |} in
  let w := start (sample_node [e]) true 1 in
  (e ∈ subscriptions (node w) /\ is_tuple e = true)
  /\ exists w' cs,
       (unsubscribe T (UStr (lit "sensors/a"));; on_connect T 3) w = Done tt w'
       /\ calls w' = calls w ++ CUnsubscribe (UStr (lit "sensors/a")) :: cs
       /\ CSubscribe e ∈ cs
       /\ e ∈ subscriptions (node w').
Proof.
  intros T e w.
  assert (Hin : e ∈ subscriptions (node w)) by (apply elem_of_cons; by left).
  split; [by split|].
  refine (proj2 (unsubscribe_leaves_registry T (UStr (lit "sensors/a")) w)
            3%nat e Hin eq_refl _).
  cbn. lia.
Defined.

(** A subscription the transport answers with the result code 4 is
    registered all the same. *)
Lemma subscribe_registers_whatever_the_result_witness :
  let T := sample_transport 0 4 in
  let w := start (sample_node []) false 0 in
  let e := TTuple (lit "sensors/a") {| oid := 0; QoS := QoS1 |} in
  subscribe_result T (calls w) e = 4
  /\ exists w',
       subscribe T (TStr (lit "sensors/a")) QoS1 w = Done tt w'
       /\ log w' = [(ERROR, LogSubscribeFailed e 4)]
       /\ subscriptions (node w') = [e]
       /\ exists w'' cs,
            on_connect T 3 w' = Done tt w''
            /\ calls w'' = calls w' ++ cs
            /\ CSubscribe e ∈ cs.
Proof.
  intros T w e. split; [reflexivity|].
  destruct (subscribe_registers_whatever_the_result T (TStr (lit "sensors/a")) QoS1 w)
    as (w' & Hrun & _ & Hlog & Hreg & _ & _ & Hreplay).
  exists w'. split; [exact Hrun|]. split; [exact (Hlog eq_refl)|].
  split; [exact Hreg|]. apply Hreplay. rewrite Hreg. vm_compute. lia.
Defined.

(** On a connected client, [publish] is one call on the transport and
    moves no counter; the acknowledgment moves the sent-message counter from
    0 to 1. *)
Lemma publish_counts_on_acknowledgment_only_witness :
  let T := sample_transport 0 0 in
  let w := start (sample_node []) true 0 in
  let topic := lit "sensors/a" in
  connected (client w) = true
  /\ publish T 0 topic [x32; x31] QoS0 false w
     = Done 0 (with_calls [CPublish topic [x32; x31] QoS0 false] w)
  /\ exists w',
       on_publish 1 w = Done tt w'
       /\ value (node_messages_sent_count (metrics w')) (labels_of (node w))
          = 1%N.
Proof.
  intros T w topic. split; [reflexivity|].
  destruct (publish_counts_on_acknowledgment_only T 0 topic [x32; x31] QoS0 false w)
    as (_ & _ & Hpub & Hack & _).
  split; [exact (Hpub eq_refl)|].
  destruct (Hack 1) as (w' & Hrun & Hval & _).
  exists w'. split; [exact Hrun|exact Hval].
Defined.

(** ** [extend_or_append] *)

Section ExtendOrAppend.

Context {A : Type}.
Implicit Types (l : list A) (x : item A) (topic : list (item A)).

(** One item adds its leaves behind what the list holds. *)
Lemma extend_or_append_item_leaves :
  forall x l, extend_or_append_item l x = l ++ leaves x.
Proof.
  fix IH 1. intros [a|items] l; cbn; [done|].
  induction items as [|y ys IHys] in l |- *; cbn.
  - by rewrite app_nil_r.
  - by rewrite IH, IHys, app_assoc.
Qed.

Lemma extend_or_append_leaves topic :
  forall l, extend_or_append l topic = l ++ flat_map leaves topic.
Proof.
  unfold extend_or_append.
  induction topic as [|x topic IH]; intros l; cbn.
  - by rewrite app_nil_r.
  - by rewrite IH, extend_or_append_item_leaves, app_assoc.
Qed.

(** X4: [extend_or_append] keeps what [list_topics] held, in front and in
    order, and adds behind it every value of [topic] that is no tuple, at
    whatever depth of tuples it lies, left to right.  The list grows by the
    number of these values; tuples that hold no such value, the empty tuple
    among them, add nothing. *)
Theorem extend_or_append_flattens :
  forall (l : list A) (topic : list (item A)),
    extend_or_append l topic = l ++ flat_map leaves topic
    /\ l `prefix_of` extend_or_append l topic
    /\ length (extend_or_append l topic)
       = (length l + length (flat_map leaves topic))%nat
    /\ (flat_map leaves topic = [] -> extend_or_append l topic = l).
Proof.
  intros l topic. rewrite extend_or_append_leaves. repeat split.
  - by apply prefix_app_r.
  - by rewrite length_app.
  - intros ->. by rewrite app_nil_r.
Qed.

(** X5: the grouping into tuples has no effect on the result.  A tuple
    among the items counts as its own items in its place; an iterable of
    values that are no tuples is appended as [list.extend] would; two
    iterables in a row are one call after the other; and the call on a
    list that already holds something is the call on its tail. *)
Theorem extend_or_append_ignores_nesting :
  forall (l l' : list A) (topic rest : list (item A)) (xs : list A),
    extend_or_append l (Tuple topic :: rest) = extend_or_append l (topic ++ rest)
    /\ extend_or_append l (Leaf <$> xs) = l ++ xs
    /\ extend_or_append l (topic ++ rest)
       = extend_or_append (extend_or_append l topic) rest
    /\ extend_or_append (l ++ l') topic = l ++ extend_or_append l' topic.
Proof.
  intros l l' topic rest xs. repeat split.
  - rewrite !extend_or_append_leaves. cbn. by rewrite flat_map_app.
  - rewrite extend_or_append_leaves. f_equal.
    induction xs as [|a xs IH]; cbn; [done|]. by rewrite IH.
  - rewrite !extend_or_append_leaves, flat_map_app. by rewrite app_assoc.
  - rewrite !extend_or_append_leaves. by rewrite app_assoc.
Qed.

End ExtendOrAppend.

Example extend_or_append_nested :
  extend_or_append [lit "a"]
    [Leaf (lit "b"); Tuple [Leaf (lit "c"); Tuple []; Tuple [Leaf (lit "d")]];
     Leaf (lit "e")]
  = [lit "a"; lit "b"; lit "c"; lit "d"; lit "e"].
Proof. reflexivity. Qed.
(** ** [convert_bytes_to_human_readable] *)

Section ConvertBytes.

Local Open Scope Q_scope.

(** The format and the loop read the value of the number, not the
    fraction that stands for it. *)

Lemma round_half_even_comp q q' : q == q' -> round_half_even q = round_half_even q'.
Proof.
  intros H. unfold round_half_even. rewrite (Qfloor_comp _ _ H).
  assert (Hc : (q - inject_Z (Qfloor q') ?= 1 # 2) = (q' - inject_Z (Qfloor q') ?= 1 # 2)).
  { apply Qcompare_comp; [|reflexivity]. by rewrite H. }
  by rewrite Hc.
Qed.

Lemma Qle_bool_comp a q q' : q == q' -> Qle_bool a q = Qle_bool a q'.
Proof.
  intros H. destruct (Qle_bool a q') eqn:E.
  - apply Qle_bool_iff. apply Qle_bool_iff in E. by rewrite H.
  - destruct (Qle_bool a q) eqn:E'; [|done].
    apply Qle_bool_iff in E'. rewrite H in E'. apply Qle_bool_iff in E'. congruence.
Qed.

Lemma format_2f_comp q q' : q == q' -> format_2f q = format_2f q'.
Proof.
  intros H. unfold format_2f.
  rewrite (round_half_even_comp (Qabs q * 100) (Qabs q' * 100)) by (by rewrite H).
  by rewrite (Qle_bool_comp 0 q q' H).
Qed.

Lemma convert_loop_comp us : forall unit q q',
  q == q' -> convert_loop us unit q = convert_loop us unit q'.
Proof.
  induction us as [|u us IH]; intros unit q q' H; cbn [convert_loop].
  - by rewrite (format_2f_comp q q' H).
  - rewrite (Qle_bool_comp 1024 q q' H), (format_2f_comp q q' H).
    destruct (Qle_bool 1024 q'); cbn [negb]; [|done].
    apply IH. by rewrite H.
Qed.

Lemma make_binary64_some m e :
  is_binary64 m e = true ->
  exists d, make_binary64 m e = Some d /\ significand d = m /\ exponent d = e.
Proof.
  intros H. unfold make_binary64. destruct (decide _) as [H'|H']; [|done].
  by eexists.
Qed.

Lemma make_binary64_inv m e d :
  make_binary64 m e = Some d -> significand d = m /\ exponent d = e.
Proof.
  unfold make_binary64. destruct (decide _) as [H'|H']; [|done].
  by intros [= <-].
Qed.

Lemma is_binary64_spec m e :
  is_binary64 m e = true <-> (Z.abs m < 2 ^ 53 /\ -1074 <= e /\ e <= 971)%Z.
Proof.
  unfold is_binary64. rewrite !andb_true_iff, Z.ltb_lt, !Z.leb_le. tauto.
Qed.

Lemma two_pow_pos e : 0 < 2 ^ e.
Proof. by apply Qpower_0_lt. Qed.

Lemma two_pow_inject e : (0 <= e)%Z -> 2 ^ e == inject_Z (2 ^ e).
Proof. intros H. symmetry. by apply (Zpower_Qpower 2 e). Qed.


Lemma pow1024_pos k : 0 < pow1024 k.
Proof.
  induction k as [|k IH]; cbn; [reflexivity|].
  apply Qmult_lt_0_compat; [reflexivity|exact IH].
Qed.

Lemma pow1024_mono j k : (j <= k)%nat -> pow1024 j <= pow1024 k.
Proof.
  induction 1 as [|k Hle IH]; [apply Qle_refl|].
  cbn. pose proof (pow1024_pos k). lra.
Qed.

(** [k] rounds of the loop divide by the [k]-th power of 1024. *)
Lemma scaled_spec k : forall q, scaled k q == q / pow1024 k.
Proof.
  induction k as [|k IH]; intros q; cbn.
  - field.
  - rewrite IH. pose proof (pow1024_pos k). field. lra.
Qed.

Lemma scaled_ge k q : pow1024 (S k) <= q -> 1024 <= scaled k q.
Proof.
  intros H. rewrite scaled_spec. pose proof (pow1024_pos k).
  apply Qle_shift_div_l; [done|]. exact H.
Qed.

Lemma scaled_lt k q : q < pow1024 (S k) -> scaled k q < 1024.
Proof.
  intros H. rewrite scaled_spec. pose proof (pow1024_pos k).
  apply Qlt_shift_div_r; [done|]. exact H.
Qed.

(** The loop returns in the first round that finds the number below
    1024, with the unit of that round. *)
Lemma convert_loop_returns us :
  forall unit q k name,
    us !! k = Some name ->
    (forall j, (j < k)%nat -> 1024 <= scaled j q) ->
    scaled k q < 1024 ->
    convert_loop us unit q = (format_2f (scaled k q) ++ lit " " ++ lit name)%list.
Proof.
  induction us as [|u us IH]; intros unit q k name Hk Hge Hlt; [done|].
  cbn [convert_loop]. destruct k as [|k].
  - injection Hk as ->. cbn in Hlt.
    destruct (Qle_bool 1024 q) eqn:E; [|done].
    apply Qle_bool_iff in E. lra.
  - pose proof (Hge 0%nat ltac:(lia)) as H0. cbn in H0.
    apply Qle_bool_iff in H0. rewrite H0. cbn [negb].
    apply (IH u (q / 1024) k name); [done| |done].
    intros j Hj. apply (Hge (S j)). lia.
Qed.

Lemma last_default_irrelevant {B} (a : B) (l : list B) (d d' : B) :
  List.last (a :: l) d = List.last (a :: l) d'.
Proof.
  revert a. induction l as [|b l IH]; intros a; [done|]. exact (IH b).
Qed.

(** When no round finds the number below 1024 the loop runs out of units,
    and line 40 shows what is left of the number with the last unit. *)
Lemma convert_loop_exhausted us :
  forall unit q,
    (forall j, (j < length us)%nat -> 1024 <= scaled j q) ->
    convert_loop us unit q
    = (format_2f (scaled (length us) q) ++ lit " " ++ lit (List.last us unit))%list.
Proof.
  induction us as [|u us IH]; intros unit q Hge; [done|].
  cbn [convert_loop].
  pose proof (Hge 0%nat ltac:(cbn; lia)) as H0. cbn in H0.
  apply Qle_bool_iff in H0. rewrite H0. cbn [negb].
  rewrite IH.
  - destruct us as [|a us']; [done|]. cbn [length scaled].
    by rewrite (last_default_irrelevant a us' u unit).
  - intros j Hj. apply (Hge (S j)). cbn. lia.
Qed.


(** Dividing a float that is at least 1024 by 1024.0 is exact: the
    quotient is a float. *)
Lemma double_div_1024 (d : binary64) :
  1024 <= double_value d ->
  exists d', double_value d' == double_value d / 1024.
Proof.
  intros Hge. destruct d as [m e Hok]. unfold double_value in *. cbn in *.
  pose proof (proj1 (is_binary64_spec m e) Hok) as (Hm & He1 & He2).
  assert (Hlow : (-1064 <= e)%Z).
  { destruct (Z_lt_le_dec e (-1064)) as [Hlt|]; [exfalso|done].
    assert (H1 : 2 ^ e <= 2 ^ (-44)) by (apply Qpower_le_compat_l; [lia|lra]).
    pose proof (two_pow_pos e) as Hp.
    assert (H2 : inject_Z m <= inject_Z (2 ^ 53)).
    { rewrite <- Zle_Qle. lia. }
    assert (H3 : inject_Z m * 2 ^ e <= inject_Z (2 ^ 53) * 2 ^ e).
    { apply Qmult_le_compat_r; [done|lra]. }
    assert (H4 : inject_Z (2 ^ 53) * 2 ^ e <= inject_Z (2 ^ 53) * 2 ^ (-44)).
    { apply Qmult_le_l; [reflexivity|done]. }
    assert (H5 : inject_Z (2 ^ 53) * 2 ^ (-44) == 512) by reflexivity.
    lra. }
  assert (Hok' : is_binary64 m (e - 10) = true).
  { apply is_binary64_spec. lia. }
  exists {| significand := m; exponent := e - 10; binary64_ok := Hok' |}.
  cbn. replace (e - 10)%Z with (e + -10)%Z by lia.
  rewrite Qpower_plus by lra.
  assert (H10 : 2 ^ (-10) == 1 / 1024) by reflexivity.
  rewrite H10. field.
Qed.

Lemma scaled_comp k : forall q q', q == q' -> scaled k q == scaled k q'.
Proof. intros q q' H. by rewrite !scaled_spec, H. Qed.

(** Every number the loop holds before it returns is a float. *)
Lemma scaled_is_double (d : binary64) k :
  (pow1024 k <= double_value d \/ k = 0%nat) ->
  forall j, (j <= k)%nat -> exists d', double_value d' == scaled j (double_value d).
Proof.
  intros Hk j. induction j as [|j IH]; intros Hj.
  - by exists d.
  - destruct IH as [d' Hd']; [lia|].
    destruct Hk as [Hk| ->]; [|lia].
    assert (Hge : 1024 <= double_value d').
    { rewrite Hd'. apply scaled_ge. eapply Qle_trans; [|exact Hk].
      apply pow1024_mono. lia. }
    destruct (double_div_1024 d' Hge) as [d'' Hd''].
    exists d''. rewrite Hd'', Hd', !scaled_spec. cbn [pow1024].
    pose proof (pow1024_pos j). field. lra.
Qed.

Local Open Scope Z_scope.

(** An int of at most 53 bits is a float. *)
Lemma float_of_int_small z :
  Z.abs z < 2 ^ 53 ->
  exists d, float_of_int z = Some d /\ significand d = z /\ exponent d = 0.
Proof.
  intros Hz. unfold float_of_int.
  assert (Hk : Z.max 0 (Z.log2 (Z.abs z) - 52) = 0).
  { destruct (Z.eq_dec (Z.abs z) 0) as [->|Hne]; [done|].
    assert (Z.log2 (Z.abs z) < 53) by (apply Z.log2_lt_pow2; lia). lia. }
  rewrite Hk. cbv zeta. rewrite Z.pow_0_r, Z.div_1_r, Z.mod_1_r.
  change (2 * 0 ?= 1)%Z with Lt. cbv iota.
  assert (Hne : (Z.abs z =? 2 ^ 53) = false) by (apply Z.eqb_neq; lia).
  rewrite Hne.
  assert (Hs : Z.sgn z * Z.abs z = z) by lia.
  rewrite Hs. apply make_binary64_some. apply is_binary64_spec. lia.
Qed.

(** A larger int is rounded to 53 bits: the float has its sign and is no
    nearer to zero than the 53rd power of two. *)
Lemma float_of_int_large z d :
  2 ^ 53 <= Z.abs z -> float_of_int z = Some d ->
  exists m e, significand d = Z.sgn z * m /\ exponent d = e
              /\ 2 ^ 52 <= m /\ 1 <= e.
Proof.
  intros Hz. unfold float_of_int.
  set (a := Z.abs z) in *.
  assert (Hlog : 53 <= Z.log2 a) by (apply Z.log2_le_pow2; lia).
  assert (Hk : Z.max 0 (Z.log2 a - 52) = Z.log2 a - 52) by lia.
  rewrite Hk. set (k := Z.log2 a - 52).
  assert (Hq : 2 ^ 52 <= a / 2 ^ k).
  { apply Z.div_le_lower_bound; [apply Z.pow_pos_nonneg; lia|].
    rewrite <- Z.pow_add_r by lia.
    replace (k + 52) with (Z.log2 a) by lia.
    apply Z.log2_spec. lia. }
  set (q := a / 2 ^ k) in *.
  set (q' := match _ ?= _ with Lt => q | Eq => _ | Gt => _ end).
  assert (Hq' : 2 ^ 52 <= q').
  { subst q'. destruct (_ ?= _); [destruct (Z.even q)| |]; lia. }
  destruct (q' =? 2 ^ 53); intros Hd; apply make_binary64_inv in Hd as [Hm He].
  - exists (2 ^ 52), (k + 1). repeat split; [done|done|lia|lia].
  - exists q', k. repeat split; [done|done|lia|lia].
Qed.

(** [float_of_int] rounds to the nearest: the float is an integer, and not
    further from the int than half of the last bit kept. *)
Lemma float_of_int_nearest z d :
  float_of_int z = Some d ->
  let k := Z.max 0 (Z.log2 (Z.abs z) - 52) in
  0 <= exponent d
  /\ 2 * Z.abs (significand d * 2 ^ exponent d - z) <= 2 ^ k.
Proof.
  intros Hd k. unfold float_of_int in Hd. fold k in Hd.
  set (a := Z.abs z) in *.
  assert (Hk : 0 <= k) by lia.
  assert (Hp : 0 < 2 ^ k) by (apply Z.pow_pos_nonneg; lia).
  pose proof (Z.div_mod a (2 ^ k) ltac:(lia)) as Hdiv.
  pose proof (Z.mod_pos_bound a (2 ^ k) Hp) as Hr.
  set (q := a / 2 ^ k) in *. set (r := a mod 2 ^ k) in *.
  set (q' := match _ ?= _ with Lt => q | Eq => _ | Gt => _ end) in Hd.
  assert (Hq' : 2 * Z.abs (q' * 2 ^ k - a) <= 2 ^ k).
  { subst q'. destruct (Z.compare_spec (2 * r) (2 ^ k)) as [E|E|E];
      [destruct (Z.even q)| |]; nia. }
  assert (Hz : z = Z.sgn z * a) by lia.
  assert (Hs : forall x, Z.abs (Z.sgn z * x - Z.sgn z * a) <= Z.abs (x - a)).
  { intros x. destruct (Z.sgn_spec z) as [[_ ->]|[[_ ->]|[_ ->]]]; lia. }
  destruct (Z.eqb_spec q' (2 ^ 53)) as [E|E];
    apply make_binary64_inv in Hd as [-> ->]; (split; [lia|]).
  - rewrite Z.pow_add_r by lia. change (2 ^ 1) with 2.
    replace (Z.sgn z * 2 ^ 52 * (2 ^ k * 2)) with (Z.sgn z * (q' * 2 ^ k))
      by (rewrite E; change (2 ^ 53) with (2 ^ 52 * 2); ring).
    rewrite Hz at 2. specialize (Hs (q' * 2 ^ k)). lia.
  - rewrite <- Z.mul_assoc. rewrite Hz at 2. specialize (Hs (q' * 2 ^ k)). lia.
Qed.

Local Open Scope Q_scope.

(** The comparison of line 37 on the int is the comparison on its float. *)
Lemma float_of_int_lt_1024 z d :
  float_of_int z = Some d ->
  (z <? 1024)%Z = negb (Qle_bool 1024 (double_value d)).
Proof.
  intros Hd. destruct (Z_lt_le_dec (Z.abs z) (2 ^ 53)) as [Hs|Hl].
  - destruct (float_of_int_small z Hs) as (d' & Hd' & Hm & He).
    assert (d' = d) by congruence. subst d'.
    unfold double_value. rewrite Hm, He.
    change (2 ^ 0) with 1. rewrite Qmult_1_r.
    destruct (Z.ltb_spec z 1024) as [H|H].
    + destruct (Qle_bool 1024 (inject_Z z)) eqn:E; [|done].
      apply Qle_bool_iff in E. change 1024 with (inject_Z 1024) in E.
      rewrite <- Zle_Qle in E. lia.
    + assert (E : Qle_bool 1024 (inject_Z z) = true).
      { apply Qle_bool_iff. change 1024 with (inject_Z 1024).
        rewrite <- Zle_Qle. lia. }
      by rewrite E.
  - destruct (float_of_int_large z d Hl Hd) as (m & e & Hm & He & Hm52 & He1).
    unfold double_value. rewrite Hm, He.
    rewrite (two_pow_inject e) by lia. rewrite <- inject_Z_mult.
    assert (Hp : (2 ^ 1 <= 2 ^ e)%Z) by (apply Z.pow_le_mono_r; lia).
    destruct (Z.ltb_spec z 1024) as [H|H].
    + assert (Hneg : (z < 0)%Z) by lia.
      destruct (Qle_bool _ _) eqn:E; [|done].
      apply Qle_bool_iff in E. change 1024 with (inject_Z 1024) in E.
      rewrite <- Zle_Qle in E.
      assert (Z.sgn z = -1)%Z by lia. nia.
    + assert (E : Qle_bool 1024 (inject_Z (Z.sgn z * m * 2 ^ e)) = true).
      { apply Qle_bool_iff. change 1024 with (inject_Z 1024).
        rewrite <- Zle_Qle. assert (Z.sgn z = 1)%Z by lia. nia. }
      by rewrite E.
Qed.

(** An int is shown as its float is. *)
Lemma convert_as_double num d :
  as_double num = Some d ->
  convert_bytes_to_human_readable num
  = Some (convert_loop units EmptyString (double_value d)).
Proof.
  destruct num as [z|[d'| | |]]; cbn [as_double]; try done.
  - intros Hd. cbn [convert_bytes_to_human_readable]. rewrite Hd.
    rewrite (float_of_int_lt_1024 z d Hd).
    unfold units. cbn [convert_loop tail].
    by destruct (Qle_bool 1024 (double_value d)).
  - by intros [= ->].
Qed.

End ConvertBytes.

(** X6: a finite float, or an int, which the code converts to the nearest
    float and which is that float when it has at most 53 bits.  When the
    float lies from the [k]-th power of 1024 up to, and not including, the
    next, with [k] at most 5, the result is the float divided by that
    power, in the format with two decimals, a blank and the [k]-th of the
    units B, KB, MB, GB, TB, PB.  Every division of the loop is exact: the
    numbers it holds are floats.  Every number below 1024, a negative one
    too, is shown as it is with the unit B. *)
Theorem convert_bytes_picks_unit :
  forall (k : nat) (name : string) (num : pynum) (d : binary64),
    units !! k = Some name ->
    as_double num = Some d ->
    (pow1024 k <= double_value d)%Q \/ k = 0%nat ->
    (double_value d < pow1024 (S k))%Q ->
    convert_bytes_to_human_readable num
    = Some (format_2f (scaled k (double_value d)) ++ lit " " ++ lit name)
    /\ (scaled k (double_value d) == double_value d / pow1024 k)%Q
    /\ (scaled k (double_value d) < 1024)%Q
    /\ (forall j, (j <= k)%nat ->
          exists d', (double_value d' == scaled j (double_value d))%Q)
    /\ (forall z, num = PInt z -> Z.abs z < 2 ^ 53 ->
          (double_value d == inject_Z z)%Q).
Proof.
  intros k name num d Hk Hd Hlow Hhigh.
  split; [|split; [apply scaled_spec|split; [by apply scaled_lt|split]]].
  - rewrite (convert_as_double num d Hd). f_equal.
    apply convert_loop_returns; [done| |by apply scaled_lt].
    intros j Hj. apply scaled_ge. destruct Hlow as [Hlow| ->]; [|lia].
    eapply Qle_trans; [|exact Hlow]. apply pow1024_mono. lia.
  - by apply scaled_is_double.
  - intros z -> Hz. cbn [as_double] in Hd.
    destruct (float_of_int_small z Hz) as (d' & Hd' & Hm & He).
    assert (d' = d) by congruence. subst d'.
    unfold double_value. rewrite Hm, He. apply Qmult_1_r.
Qed.

(** 1536 bytes are one and a half KB. *)
Lemma convert_bytes_picks_unit_witness :
  let d := {| significand := 1536; exponent := 0; binary64_ok := eq_refl |} in
  units !! 1%nat = Some "KB"%string
  /\ as_double (PInt 1536) = Some d
  /\ (pow1024 1 <= double_value d)%Q
  /\ (double_value d < pow1024 2)%Q
  /\ convert_bytes_to_human_readable (PInt 1536) = Some (lit "1.50 KB").
Proof.
  intros d.
  assert (Hd : as_double (PInt 1536) = Some d) by (vm_compute; reflexivity).
  assert (Hlow : (pow1024 1 <= double_value d)%Q) by (vm_compute; discriminate).
  assert (Hhigh : (double_value d < pow1024 2)%Q) by (vm_compute; reflexivity).
  split; [reflexivity|]. split; [exact Hd|]. split; [exact Hlow|].
  split; [exact Hhigh|].
  exact (proj1 (convert_bytes_picks_unit 1 "KB" (PInt 1536) d eq_refl Hd
                  (or_introl Hlow) Hhigh)).
Defined.

(** X7: from the sixth power of 1024 on, 1024 PB, the loop has no unit
    left: for a finite float, or an int through its nearest float, the
    result is the float divided by the sixth power of 1024, six exact
    divisions, and still labelled PB.  Such an amount reads as the amount
    1024 times smaller does. *)
Theorem convert_bytes_beyond_petabytes :
  forall (num : pynum) (d : binary64),
    as_double num = Some d ->
    (pow1024 6 <= double_value d)%Q ->
    convert_bytes_to_human_readable num
    = Some (format_2f (scaled 6 (double_value d)) ++ lit " PB")
    /\ (scaled 6 (double_value d) == double_value d / pow1024 6)%Q
    /\ (forall j, (j <= 6)%nat ->
          exists d', (double_value d' == scaled j (double_value d))%Q)
    /\ ((double_value d < pow1024 7)%Q ->
        exists d', (double_value d' == double_value d / 1024)%Q
                   /\ convert_bytes_to_human_readable num
                      = convert_bytes_to_human_readable (PFloat (FNum d'))).
Proof.
  intros num d Hd Hlow.
  assert (Hge : forall j, (j < 6)%nat -> (1024 <= scaled j (double_value d))%Q).
  { intros j Hj. apply scaled_ge. eapply Qle_trans; [|exact Hlow].
    apply pow1024_mono. lia. }
  assert (Hrun : convert_bytes_to_human_readable num
                 = Some (format_2f (scaled 6 (double_value d)) ++ lit " PB")).
  { rewrite (convert_as_double num d Hd). f_equal.
    by rewrite (convert_loop_exhausted units EmptyString (double_value d) Hge). }
  split; [exact Hrun|]. split; [apply scaled_spec|]. split.
  { apply scaled_is_double. by left. }
  intros Hhigh.
  destruct (double_div_1024 d (Hge 0%nat ltac:(lia))) as [d' Hd'].
  exists d'. split; [exact Hd'|]. rewrite Hrun.
  cbn [convert_bytes_to_human_readable convert_float]. f_equal. symmetry.
  rewrite (convert_loop_comp units EmptyString _ _ Hd').
  apply (convert_loop_returns units EmptyString (double_value d / 1024)%Q 5 "PB" eq_refl).
  - intros j Hj. apply scaled_ge. apply Qle_trans with (pow1024 5).
    + apply pow1024_mono. lia.
    + apply Qle_shift_div_l; [reflexivity|].
      rewrite Qmult_comm. exact Hlow.
  - apply scaled_lt. apply Qlt_shift_div_r; [reflexivity|].
    rewrite Qmult_comm. exact Hhigh.
Qed.

(** The sixth power of 1024, which is 1024 PB, reads "1.00 PB". *)
Lemma convert_bytes_beyond_petabytes_witness :
  let d := {| significand := 2 ^ 52; exponent := 8; binary64_ok := eq_refl |} in
  as_double (PInt (2 ^ 60)) = Some d
  /\ (pow1024 6 <= double_value d)%Q
  /\ convert_bytes_to_human_readable (PInt (2 ^ 60)) = Some (lit "1.00 PB").
Proof.
  intros d.
  assert (Hd : as_double (PInt (2 ^ 60)) = Some d) by (vm_compute; reflexivity).
  assert (H : (pow1024 6 <= double_value d)%Q) by (vm_compute; discriminate).
  split; [exact Hd|]. split; [exact H|].
  exact (proj1 (convert_bytes_beyond_petabytes (PInt (2 ^ 60)) d Hd H)).
Defined.

(** Small numbers, ints and a float. *)
Example convert_bytes_small :
  convert_bytes_to_human_readable (PInt 0) = Some (lit "0.00 B")
  /\ convert_bytes_to_human_readable (PInt 1023) = Some (lit "1023.00 B")
  /\ convert_bytes_to_human_readable (PInt 1024) = Some (lit "1.00 KB")
  /\ convert_bytes_to_human_readable (PInt (-2048)) = Some (lit "-2048.00 B")
  /\ convert_bytes_to_human_readable
       (PFloat (FNum {| significand := 3; exponent := -1;
                        binary64_ok := eq_refl |}))
     = Some (lit "1.50 B").
Proof. repeat split; vm_compute; reflexivity. Qed.

(** An int of more than 53 bits is rounded before it is divided:
    9024087753343631 is computed with as 9024087753343632, which is above
    8.015 times the fifth power of 1024 where the int is below it; in a
    tie the even significand wins. *)
Example convert_bytes_rounds_large_int :
  (significand <$> float_of_int 9024087753343631) = Some 4512043876671816
  /\ (exponent <$> float_of_int 9024087753343631) = Some 1
  /\ convert_bytes_to_human_readable (PInt 9024087753343631)
     = Some (lit "8.02 PB")
  /\ convert_bytes_to_human_readable (PInt (2 ^ 106 + 2 ^ 53))
     = Some (lit "70368744177664.00 PB")
  /\ convert_bytes_to_human_readable (PInt (- (2 ^ 53 + 1)))
     = Some (lit "-9007199254740992.00 B").
Proof. repeat split; vm_compute; reflexivity. Qed.

(** An int beyond the floats raises [OverflowError], in the division when
    it is positive and in the format when it is negative. *)
Example convert_bytes_overflow :
  convert_bytes_to_human_readable (PInt (2 ^ 1024)) = None
  /\ convert_bytes_to_human_readable (PInt (- 2 ^ 1024)) = None
  /\ convert_bytes_to_human_readable (PInt (2 ^ 1024 - 2 ^ 970)) = None
  /\ (significand <$> float_of_int (2 ^ 1024 - 2 ^ 970 - 1)) = Some (2 ^ 53 - 1).
Proof. repeat split; vm_compute; reflexivity. Qed.

(** The floats that are not numbers of bytes. *)
Example convert_bytes_special :
  convert_bytes_to_human_readable (PFloat FNaN) = Some (lit "nan PB")
  /\ convert_bytes_to_human_readable (PFloat (FInf false)) = Some (lit "inf PB")
  /\ convert_bytes_to_human_readable (PFloat (FInf true)) = Some (lit "-inf B")
  /\ convert_bytes_to_human_readable (PFloat FNegZero) = Some (lit "-0.00 B").
Proof. repeat split; reflexivity. Qed.

(** ** [parse_properties_dict] *)

Lemma parse_properties_fold items :
  forall acc,
    fold_left
      (λ publish_properties kv,
         let key := kv.1 in
         let value := kv.2 in
         let value :=
           if isinstance_str value then value else VStr (py_str value) in
         set_UserProperty (key, value) publish_properties)
      items acc
    = {| UserProperty :=
           UserProperty acc ++ ((λ kv, (kv.1, VStr (py_str kv.2))) <$> items) |}.
Proof.
  induction items as [|[key value] items IH]; intros [up]; cbn.
  - by rewrite app_nil_r.
  - rewrite IH. cbn. rewrite <- app_assoc. by destruct value.
Qed.

(** X8: [parse_properties_dict] raises [ValueError] for an argument that
    is no dict.  For a dict it returns properties that hold one user
    property per item, in the order of the dict and under the same keys;
    every value is a string, a string value being kept as it is and any
    other value being replaced by its [str].  The empty dict gives no user
    property. *)
Theorem parse_properties_dict_user_properties :
  (forall v, parse_properties_dict (ANotDict v) = Err ValueError)
  /\ (forall items, exists p,
        parse_properties_dict (ADict items) = Ok p
        /\ UserProperty p = (λ kv, (kv.1, VStr (py_str kv.2))) <$> items
        /\ length (UserProperty p) = length items
        /\ fst <$> UserProperty p = fst <$> items
        /\ Forall (λ kv, isinstance_str kv.2 = true) (UserProperty p)
        /\ (forall key s, (key, VStr s) ∈ items ->
                          (key, VStr s) ∈ UserProperty p)).
Proof.
  split; [done|]. intros items. eexists. split; [reflexivity|].
  rewrite parse_properties_fold. cbn. repeat split.
  - by rewrite length_fmap.
  - rewrite <- list_fmap_compose. by apply list_fmap_ext.
  - apply Forall_fmap. by apply Forall_true.
  - intros key s Hin.
    by apply (list_elem_of_fmap_2 (λ kv, (kv.1, VStr (py_str kv.2))) _ _ Hin).
Qed.

Example parse_properties_dict_sample :
  parse_properties_dict
    (ADict [(lit "unit", VStr (lit "C")); (lit "seq", VInt 42);
            (lit "valid", VBool true)])
  = Ok {| UserProperty := [(lit "unit", VStr (lit "C"));
                           (lit "seq", VStr (lit "42"));
                           (lit "valid", VStr (lit "True"))] |}.
Proof. reflexivity. Qed.

(** ** [connect] *)

(** X9: on a client that is connected, [connect] starts the network loop
    and does nothing else: it makes no connection attempt, sets no socket
    option, calls nothing that [ensure_connection] would call, and leaves
    the state as it found it. *)
Theorem connect_on_connected_client :
  forall (T : Transport) (fuel : nat) (w : World),
    connected (client w) = true ->
    connect T fuel w = ([SLoopStart], Done tt w).
Proof.
  intros T fuel w Hc. unfold connect. rewrite Hc.
  by rewrite (ensure_connection_connected T fuel w Hc).
Qed.

Lemma connect_on_connected_client_witness :
  let T := sample_transport 0 0 in
  let w := start (sample_node []) true 0 in
  connected (client w) = true
  /\ connect T 0 w = ([SLoopStart], Done tt w).
Proof.
  intros T w. split; [reflexivity|].
  exact (connect_on_connected_client T 0 w eq_refl).
Defined.

(** X10: on a client that is not connected, [connect] makes one attempt
    with the host, port and keepalive of its configuration.  When the
    attempt is accepted it sets the send buffer to 2048 and returns, with no
    reconnect and no sleep.  When the attempt is refused, or fails with
    another socket error, the error leaves [connect] at once: it is neither
    logged nor retried, and the socket option is not set. *)
Theorem connect_first_attempt :
  forall (T : Transport) (fuel : nat) (w : World),
    connected (client w) = false ->
    let self := node w in
    let attempt :=
      SConnect (node_hostname self) (node_port self) (node_keepalive self) in
    let after (up : bool) :=
      with_client {| host := node_hostname self; client_port := node_port self;
                     connected := up; attempts := S (attempts (client w)) |} w in
    (reconnect_outcome T (attempts (client w)) = Established ->
       connect T fuel w
       = ([SLoopStart; attempt; SSetSndBuf 2048], Done tt (after true)))
    /\ (reconnect_outcome T (attempts (client w)) = Refused ->
          connect T fuel w
          = ([SLoopStart; attempt], Raised ConnectionRefusedError (after false)))
    /\ (reconnect_outcome T (attempts (client w)) = Failed ->
          connect T fuel w
          = ([SLoopStart; attempt], Raised OSError (after false))).
Proof.
  intros T fuel w Hc self attempt after.
  unfold connect, client_connect. rewrite Hc. fold self.
  repeat split; intros ->; [|done|done].
  by rewrite ensure_connection_connected.
Qed.

(** A broker that refuses the first attempt: [connect] raises, where
    [ensure_connection] on the same state goes on to a second attempt. *)
Lemma connect_first_attempt_witness :
  let T := sample_transport 1 0 in
  let w := start (sample_node []) false 0 in
  connected (client w) = false
  /\ connect T 5 w
     = ([SLoopStart; SConnect (lit "broker.local") 1883 60],
        Raised ConnectionRefusedError
          (with_client {| host := lit "broker.local"; client_port := 1883;
                          connected := false; attempts := 1 |} w))
  /\ exists w', ensure_connection T 5 w = Done tt w'
                /\ attempts (client w') = 2%nat.
Proof.
  intros T w. split; [reflexivity|]. split.
  - exact (proj1 (proj2 (connect_first_attempt T 5 w eq_refl)) eq_refl).
  - eexists. split; [vm_compute; reflexivity|reflexivity].
Defined.

(** ** [shorten_data] for every [max_length] *)

Lemma rstrip_app_stripped (l k : str) :
  k <> [] -> rstrip k = k -> rstrip (l ++ k) = l ++ k.
Proof.
  intros Hk Hr. induction l as [|c l IH]; [done|].
  cbn. rewrite IH. destruct (l ++ k) eqn:E; [|done].
  by destruct l, k.
Qed.

Lemma strip_length_pos_head (s : str) :
  (0 < length (strip s))%nat ->
  exists c t, strip s = c :: t /\ isspace c = false.
Proof.
  unfold strip. destruct (lstrip_head s) as [E|(c & t & E & Hc)]; rewrite E.
  - cbn. lia.
  - intros _. exists c, (rstrip t). by rewrite (rstrip_cons c t Hc).
Qed.

(** A cut string with its marker has no white space around it. *)
Lemma strip_cut (s : str) (m : nat) :
  (m < length (strip s))%nat ->
  strip (take m (strip s) ++ lit "...") = take m (strip s) ++ lit "...".
Proof.
  intros Hm.
  assert (Hr : rstrip (take m (strip s) ++ lit "...")
               = take m (strip s) ++ lit "...")
    by (by apply rstrip_app_stripped).
  unfold strip at 1.
  destruct m as [|m]; [done|].
  destruct (strip_length_pos_head s) as (c & t & E & Hc); [lia|].
  rewrite E in Hr |- *. cbn [take app lstrip] in *. by rewrite Hc.
Qed.

(** X11: for every [max_length] that is not negative, [shorten_data] is
    idempotent on every string, its result is at most [max_length + 3]
    characters long and has no white space at either end, and a string
    whose stripped form fits comes back stripped and without marker. *)
Theorem shorten_data_idempotent :
  forall (s : str) (max_length : Z),
    0 <= max_length ->
    shorten_data (shorten_data s max_length) max_length
    = shorten_data s max_length
    /\ Z.of_nat (length (shorten_data s max_length)) <= max_length + 3
    /\ strip (shorten_data s max_length) = shorten_data s max_length
    /\ (Z.of_nat (length (strip s)) <= max_length ->
        shorten_data s max_length = strip s).
Proof.
  intros s m Hm.
  assert (Hsl : forall t : str, slice_to t m = take (Z.to_nat m) t).
  { intros t. unfold slice_to. by destruct (Z.ltb_spec m 0) as [|_]; [lia|]. }
  destruct (Z.gtb_spec (Z.of_nat (length (strip s))) m) as [Hgt|Hle].
  - assert (Hlen : (Z.to_nat m < length (strip s))%nat) by lia.
    assert (Hrun : shorten_data s m = take (Z.to_nat m) (strip s) ++ lit "...").
    { unfold shorten_data. cbn zeta. rewrite Hsl.
      by destruct (Z.gtb_spec (Z.of_nat (length (strip s))) m); [|lia]. }
    assert (Hcut : length (take (Z.to_nat m) (strip s) ++ lit "...")
                   = (Z.to_nat m + 3)%nat).
    { rewrite length_app, length_take.
      change (length (lit "...")) with 3%nat. lia. }
    rewrite Hrun. split; [|split; [|split]].
    + unfold shorten_data. cbn zeta. rewrite (strip_cut s _ Hlen), Hsl.
      destruct (Z.gtb_spec
                  (Z.of_nat (length (take (Z.to_nat m) (strip s) ++ lit "..."))) m)
        as [_|Hno]; [|lia].
      rewrite take_app_le by (rewrite length_take; lia).
      by rewrite take_take, Nat.min_id.
    + lia.
    + by apply strip_cut.
    + lia.
  - assert (Hrun : shorten_data s m = strip s).
    { unfold shorten_data. cbn zeta.
      by destruct (Z.gtb_spec (Z.of_nat (length (strip s))) m); [lia|]. }
    rewrite Hrun. split; [|split; [|split]].
    + unfold shorten_data. cbn zeta. rewrite strip_idem.
      by destruct (Z.gtb_spec (Z.of_nat (length (strip s))) m); [lia|].
    + lia.
    + apply strip_idem.
    + done.
Qed.

(** With [max_length] 10, a padded line of 14 characters is cut to its
    first 10 and marked; a second pass changes nothing. *)
Lemma shorten_data_idempotent_witness :
  let s := lit "  temperature=21.5 " in
  0 <= 10
  /\ shorten_data s 10 = lit "temperatur..."
  /\ shorten_data (shorten_data s 10) 10 = shorten_data s 10.
Proof.
  intros s. assert (H : 0 <= 10) by discriminate.
  split; [exact H|]. split; [reflexivity|].
  exact (proj1 (shorten_data_idempotent s 10 H)).
Defined.

(** With a negative [max_length] the test of line 31 holds for every
    string: the empty string itself comes back as the marker. *)
Example shorten_data_negative_max_length :
  shorten_data [] (-1) = lit "..."
  /\ shorten_data (lit "abcdef") (-2) = lit "abcd...".
Proof. split; reflexivity. Qed.

(** ** Generated identifiers *)

Lemma lit_inj (s s' : string) : lit s = lit s' -> s = s'.
Proof.
  intros H. unfold lit in H.
  rewrite <- (String.string_of_list_ascii_of_string s),
          <- (String.string_of_list_ascii_of_string s').
  f_equal. revert H.
  generalize (String.list_ascii_of_string s) (String.list_ascii_of_string s').
  induction l as [|a l IH]; intros [|b l'] H; try done.
  injection H as Hab Hl. f_equal; [|by apply IH].
  by rewrite <- (ascii_N_embedding a), <- (ascii_N_embedding b), Hab.
Qed.

Lemma str_of_nat_inj (i j : nat) : str_of_nat i = str_of_nat j -> i = j.
Proof. intros H. by apply (inj pretty), lit_inj. Qed.

(** X12: in a class that declares [node_type], a construction without
    [node_id] takes the value of the shared counter and moves the counter on
    by one.  The identifier is the class attribute, an underscore and that
    value, whatever [node_type] the caller passes, and [client_id] stays
    empty; the identifiers of constructions that met different counter
    values differ. *)
Theorem generated_ids_are_unique :
  forall (cls : pyclass) (class_type : str)
         (cfg cfg' : MQTTBrokerConfig) (name_arg name_arg' : option str)
         (type_arg type_arg' : option str)
         (subs subs' : option (list topic)) (i j : nat),
    class_node_type cls = Some class_type ->
    exists self self',
      __init__ cls cfg name_arg [] type_arg subs i = (Ok self, S i)
      /\ __init__ cls cfg' name_arg' [] type_arg' subs' j = (Ok self', S j)
      /\ node_id self = class_type ++ lit "_" ++ str_of_nat i
      /\ client_id self = []
      /\ (i <> j -> node_id self <> node_id self').
Proof.
  intros cls class_type cfg cfg' name_arg name_arg' type_arg type_arg'
    subs subs' i j Hcls.
  unfold __init__, _get_id, getattr_node_type. cbn. rewrite Hcls.
  eexists _, _. repeat split. cbn. intros Hij Heq. apply Hij.
  apply app_inv_head in Heq. injection Heq as Heq.
  by apply str_of_nat_inj.
Qed.

(** Two sensors built one after the other, from the start of the counter. *)
Lemma generated_ids_are_unique_witness :
  let cls := {| class_name := lit "Sensor"; class_node_type := Some (lit "sensor") |} in
  class_node_type cls = Some (lit "sensor")
  /\ exists self self',
       __init__ cls sample_config None [] None None 0 = (Ok self, 1%nat)
       /\ __init__ cls sample_config None [] (Some (lit "probe")) None 1
          = (Ok self', 2%nat)
       /\ node_id self = lit "sensor_0"
       /\ client_id self = []
       /\ (0%nat <> 1%nat -> node_id self <> node_id self').
Proof.
  intros cls.
  split; [reflexivity|].
  exact (generated_ids_are_unique cls (lit "sensor") sample_config sample_config
           None None None (Some (lit "probe")) None None 0 1 eq_refl).
Defined.

(** ** [publish] and the reconnect loop *)

Section PublishReconnect.

Variable T : Transport.

Lemma ensure_connection_disconnected fuel w :
  connected (client w) = false ->
  ensure_connection T fuel w = reconnect_loop T fuel 1 w.
Proof.
  intros Hc. unfold ensure_connection, is_connected. unfold_monad.
  by rewrite Hc.
Qed.

(** However the loop ends, it has called nothing but [reconnect] and
    [sleep]; and when it returns, the client is connected. *)
Lemma reconnect_loop_calls fuel :
  forall r w w',
    final_world (reconnect_loop T fuel r w) = Some w' ->
    (exists cs, calls w' = calls w ++ cs
                /\ Forall (λ c, is_retry_call c = true) cs)
    /\ (forall u, reconnect_loop T fuel r w = Done u w' ->
                  connected (client w') = true).
Proof.
  induction fuel as [|fuel IH]; intros r w w'; [done|].
  cbn [reconnect_loop]. unfold is_connected, try_except, client_reconnect,
    time_sleep. unfold_monad.
  destruct w as [n [h p up k] cs lg m j]. cbn.
  destruct up; cbn.
  { intros [= <-]. split; [|done]. exists []. by rewrite app_nil_r. }
  assert (Hext : forall w1 : World,
            (exists cs1, calls w1 = cs ++ cs1
                         /\ Forall (λ c, is_retry_call c = true) cs1) ->
            forall w2, (exists cs2, calls w2 = calls w1 ++ cs2
                         /\ Forall (λ c, is_retry_call c = true) cs2) ->
            exists cs3, calls w2 = cs ++ cs3
                         /\ Forall (λ c, is_retry_call c = true) cs3).
  { intros w1 (cs1 & -> & H1) w2 (cs2 & -> & H2). exists (cs1 ++ cs2).
    rewrite app_assoc. split; [done|]. by apply Forall_app. }
  destruct (reconnect_outcome T k); cbn;
    try (case_decide; [|done]); cbn;
    try (intros [= <-]; split; [|done]; exists [CReconnect]; split; [done|];
         by repeat constructor);
    (destruct (node_timeout n <? 0);
     [intros [= <-]; split; [|done]; exists [CReconnect]; split; [done|];
      by repeat constructor|]); cbn;
    intros Hw; destruct (IH _ _ _ Hw) as [Hcs Hup]; (split; [|exact Hup]);
    (eapply Hext; [|exact Hcs]); cbn;
    exists [CReconnect; CSleep (node_timeout n)];
    (split; [by rewrite <- app_assoc|by repeat constructor]).
Qed.

End PublishReconnect.

(** X13: [publish] hands a message to the transport only on a connected
    client.  When it returns, the client is connected, the publish is the
    last call, and the calls before it are those of the reconnect loop; when
    it raises, it has called nothing but [reconnect] and [sleep], and the
    message was not published. *)
Theorem publish_only_when_connected :
  forall (T : Transport) (fuel : nat) (t : str) (p : bytes) (q : qos)
         (retain : bool) (w : World),
    (forall res w',
       publish T fuel t p q retain w = Done res w' ->
       connected (client w') = true
       /\ exists cs, calls w' = calls w ++ cs ++ [CPublish t p q retain]
                     /\ Forall (λ c, is_retry_call c = true) cs)
    /\ (forall e w',
          publish T fuel t p q retain w = Raised e w' ->
          exists cs, calls w' = calls w ++ cs
                     /\ Forall (λ c, is_retry_call c = true) cs).
Proof.
  intros T fuel t p q retain w.
  assert (Hloop : forall w1,
            final_world (ensure_connection T fuel w) = Some w1 ->
            (exists cs, calls w1 = calls w ++ cs
                        /\ Forall (λ c, is_retry_call c = true) cs)
            /\ (forall u, ensure_connection T fuel w = Done u w1 ->
                          connected (client w1) = true)).
  { intros w1. destruct (connected (client w)) eqn:Hc.
    - rewrite (ensure_connection_connected T fuel w Hc). intros [= <-].
      split; [|done]. exists []. by rewrite app_nil_r.
    - rewrite (ensure_connection_disconnected T fuel w Hc).
      apply reconnect_loop_calls. }
  rewrite publish_eq. split.
  - intros res w' Hrun.
    destruct (ensure_connection T fuel w) as [[] w1|e w1|] eqn:E; [|done|done].
    injection Hrun as _ <-. destruct (Hloop w1 eq_refl) as [(cs & Hcs & Hall) Hup].
    split; [by apply (Hup tt)|]. exists cs. cbn. rewrite Hcs.
    by rewrite <- app_assoc.
  - intros e w' Hrun.
    destruct (ensure_connection T fuel w) as [[] w1|e1 w1|] eqn:E; [done| |done].
    injection Hrun as _ <-. by destruct (Hloop w1 eq_refl) as [Hcs _].
Qed.

(** X14: a [publish] on a client that is not connected reconnects first:
    when the broker accepts after [n] refused or unanswered attempts, the
    calls of [publish] are [n + 1] times a reconnect and a sleep of
    [timeout] seconds, and then the one publish. *)
Theorem publish_reconnects_first :
  forall (T : Transport) (n fuel : nat) (t : str) (p : bytes) (q : qos)
         (retain : bool) (w : World),
    connected (client w) = false ->
    0 <= node_timeout (node w) ->
    (forall j, (j < n)%nat ->
       stays_down (reconnect_outcome T (attempts (client w) + j)) = true) ->
    reconnect_outcome T (attempts (client w) + n) = Established ->
    (n + 2 <= fuel)%nat ->
    exists res w',
      publish T fuel t p q retain w = Done res w'
      /\ calls w' = calls w ++ retry_calls (node_timeout (node w)) (S n)
                            ++ [CPublish t p q retain]
      /\ connected (client w') = true
      /\ attempts (client w') = (attempts (client w) + S n)%nat
      /\ metrics w' = metrics w.
Proof.
  intros T n fuel t p q retain w Hc Ht Hdown Hup Hfuel.
  rewrite publish_eq, (ensure_connection_disconnected T fuel w Hc).
  rewrite (reconnect_loop_connects T n fuel 1 w Hc Ht Hdown Hup Hfuel).
  eexists _, _. split; [reflexivity|]. cbn. repeat split.
  by rewrite <- app_assoc.
Qed.

(** Two refusals, then an accepted attempt, then the publish. *)
Lemma publish_reconnects_first_witness :
  let T := sample_transport 2 0 in
  let w := start (sample_node []) false 0 in
  let topic := lit "sensors/a" in
  (connected (client w) = false /\ 0 <= node_timeout (node w))
  /\ exists res w',
       publish T 4 topic [x32; x31] QoS1 false w = Done res w'
       /\ calls w' = [CReconnect; CSleep 5; CReconnect; CSleep 5;
                      CReconnect; CSleep 5;
                      CPublish topic [x32; x31] QoS1 false]
       /\ connected (client w') = true
       /\ attempts (client w') = 3%nat
       /\ metrics w' = metrics w.
Proof.
  intros T w topic. split; [split; [reflexivity|discriminate]|].
  refine (publish_reconnects_first T 2 4 topic [x32; x31] QoS1 false w
            eq_refl _ _ eq_refl _).
  - discriminate.
  - intros j Hj. do 2 (destruct j as [|j]; [reflexivity|]). lia.
  - lia.
Defined.

(** ** Errors that leave [ensure_connection] *)

Section EnsureErrors.

Variable T : Transport.

Lemma reconnect_loop_fails n :
  forall fuel r w,
    connected (client w) = false ->
    0 <= node_timeout (node w) ->
    (forall j, (j < n)%nat ->
       stays_down (reconnect_outcome T (attempts (client w) + j)) = true) ->
    reconnect_outcome T (attempts (client w) + n) = Failed ->
    (n + 1 <= fuel)%nat ->
    reconnect_loop T fuel r w =
    Raised OSError
      {| node := node w;
         client :=
           {| host := host (client w); client_port := client_port (client w);
              connected := false;
              attempts := (attempts (client w) + S n)%nat |};
         calls := calls w ++ retry_calls (node_timeout (node w)) n
                          ++ [CReconnect];
         log := log w ++ retry_log T (node w) (attempts (client w)) r n;
         metrics := metrics w;
         next_oid := next_oid w |}.
Proof.
  induction n as [|n IH]; intros fuel r w Hc Ht Hdown Hfail Hfuel;
    (destruct fuel as [|fuel]; [lia|]);
    rewrite reconnect_loop_round by done.
  - rewrite Nat.add_0_r in Hfail. rewrite Hfail. cbn.
    unfold with_client, with_calls. cbn.
    by rewrite app_nil_r, Nat.add_1_r.
  - pose proof (Hdown 0%nat ltac:(lia)) as H0. rewrite Nat.add_0_r in H0.
    assert (Hw1 : connected (client (after_round T r w)) = false).
    { unfold after_round. cbn.
      by destruct (reconnect_outcome T (attempts (client w))). }
    destruct (reconnect_outcome T (attempts (client w))) eqn:E; try done;
      (rewrite IH; [|done|done| | |lia]);
      try (unfold after_round; cbn; rewrite E; cbn; rewrite <- !app_assoc; cbn;
           by replace (S (attempts (client w) + S n))
             with (attempts (client w) + S (S n))%nat by lia);
      try (intros j Hj; unfold after_round; cbn;
           replace (S (attempts (client w) + j))
             with (attempts (client w) + S j)%nat by lia;
           apply Hdown; lia);
      unfold after_round; cbn;
      by replace (S (attempts (client w) + n))
        with (attempts (client w) + S n)%nat by lia.
Qed.

End EnsureErrors.

(** X15: [ensure_connection] catches the refusal of a connection and no
    other error of [reconnect].  When an attempt fails with another socket
    error, after [n] attempts that were refused or not answered, that error
    leaves the method: the client is not connected, the failed attempt is
    followed by no log record and no sleep, and no further attempt is
    made. *)
Theorem ensure_connection_socket_error_propagates :
  forall (T : Transport) (n fuel : nat) (w : World),
    connected (client w) = false ->
    0 <= node_timeout (node w) ->
    (forall j, (j < n)%nat ->
       stays_down (reconnect_outcome T (attempts (client w) + j)) = true) ->
    reconnect_outcome T (attempts (client w) + n) = Failed ->
    (n + 1 <= fuel)%nat ->
    exists w',
      ensure_connection T fuel w = Raised OSError w'
      /\ connected (client w') = false
      /\ attempts (client w') = (attempts (client w) + S n)%nat
      /\ calls w' = calls w ++ retry_calls (node_timeout (node w)) n
                            ++ [CReconnect]
      /\ log w' = log w ++ retry_log T (node w) (attempts (client w)) 1 n.
Proof.
  intros T n fuel w Hc Ht Hdown Hfail Hfuel.
  rewrite (ensure_connection_disconnected T fuel w Hc).
  rewrite (reconnect_loop_fails T n fuel 1 w Hc Ht Hdown Hfail Hfuel).
  by eexists.
Qed.

(** One refusal, then a time-out of the socket. *)
Lemma ensure_connection_socket_error_propagates_witness :
  let T := {| reconnect_outcome := λ k, if (k <? 1)%nat then Refused else Failed;
              subscribe_result := λ _ _, 0;
              unsubscribe_result := λ _ _, 0;
              publish_result := λ _, 0 |} in
  let w := start (sample_node []) false 0 in
  (connected (client w) = false /\ 0 <= node_timeout (node w))
  /\ exists w',
       ensure_connection T 9 w = Raised OSError w'
       /\ connected (client w') = false
       /\ attempts (client w') = 2%nat
       /\ calls w' = [CReconnect; CSleep 5; CReconnect]
       /\ log w' = [(ERROR, LogReconnectFailed (lit "broker.local") 1883);
                    (INFO, LogRetry 2 5)].
Proof.
  intros T w. split; [split; [reflexivity|discriminate]|].
  refine (ensure_connection_socket_error_propagates T 1 9 w eq_refl _ _ eq_refl _).
  - discriminate.
  - intros j Hj. destruct j as [|j]; [reflexivity|lia].
  - lia.
Defined.



(** ** Runs of messages *)

Lemma on_message_world (m : MQTTMessage) (w : World) :
  exists w',
    final_world (on_message m w) = Some w'
    /\ (match on_message m w with OutOfFuel => False | _ => True end)
    /\ node w' = node w /\ client w' = client w /\ calls w' = calls w
    /\ next_oid w' = next_oid w
    /\ node_messages_received_count (metrics w')
       = inc (labels_of (node w)) 1 (node_messages_received_count (metrics w))
    /\ node_bytes_received_count (metrics w')
       = inc (labels_of (node w)) (N.of_nat (length (payload m)))
           (node_bytes_received_count (metrics w))
    /\ node_messages_sent_count (metrics w')
       = node_messages_sent_count (metrics w)
    /\ node_bytes_sent_count (metrics w') = node_bytes_sent_count (metrics w)
    /\ length (log w')
       = (length (log w)
          + if decide (is_Some (Utf8.decode (payload m))) then 1 else 0)%nat.
Proof.
  unfold on_message, inc_messages_received, inc_bytes_received. unfold_monad.
  destruct (Utf8.decode (payload m)) as [text|] eqn:E; eexists;
    (split; [reflexivity|]); cbn; repeat split.
  - rewrite length_app. cbn. by rewrite decide_True.
  - rewrite decide_False; [lia|]. by intros [? ?].
Qed.

(** X17: after any run of received messages, the received-message counter
    of the node's labels has grown by the number of messages and the
    received-byte counter by the bytes of all their payloads, those that do
    not decode included; the values of other labels and the two sent
    counters are as before, nothing was called on the transport, and the log
    holds one more record for each payload that decodes. *)
Theorem deliver_counts_every_message :
  forall (ms : list MQTTMessage) (w : World),
    let w' := deliver ms w in
    let l := labels_of (node w) in
    value (node_messages_received_count (metrics w')) l
    = (value (node_messages_received_count (metrics w)) l
       + N.of_nat (length ms))%N
    /\ value (node_bytes_received_count (metrics w')) l
       = (value (node_bytes_received_count (metrics w)) l + payload_bytes ms)%N
    /\ (forall l', l' <> l ->
          value (node_messages_received_count (metrics w')) l'
          = value (node_messages_received_count (metrics w)) l'
          /\ value (node_bytes_received_count (metrics w')) l'
             = value (node_bytes_received_count (metrics w)) l')
    /\ node_messages_sent_count (metrics w')
       = node_messages_sent_count (metrics w)
    /\ node_bytes_sent_count (metrics w') = node_bytes_sent_count (metrics w)
    /\ node w' = node w /\ calls w' = calls w
    /\ length (log w') = (length (log w) + length (decodable ms))%nat.
Proof.
  induction ms as [|m ms IH]; intros w; cbn zeta.
  - cbn. repeat split; try done; lia.
  - destruct (on_message_world m w)
      as (w1 & Hw1 & Hfuel & Hn & _ & Hc & _ & Hmr & Hbr & Hms & Hbs & Hlog).
    assert (Hd : deliver (m :: ms) w = deliver ms w1).
    { cbn [deliver]. destruct (on_message m w); try done;
        by injection Hw1 as ->. }
    rewrite Hd. specialize (IH w1). cbn zeta in IH. rewrite Hn in IH.
    destruct IH as (I1 & I2 & I3 & I4 & I5 & I6 & I7 & I8).
    rewrite I1, I2, I4, I5, I6, I7, I8, Hmr, Hbr, Hms, Hbs, Hc, Hlog.
    rewrite !value_inc_same. repeat split; try done.
    + cbn [length]. lia.
    + cbn [payload_bytes foldr]. fold (payload_bytes ms). lia.
    + destruct (I3 l' H) as [-> _]. rewrite Hmr. by apply value_inc_other.
    + destruct (I3 l' H) as [_ ->]. rewrite Hbr. by apply value_inc_other.
    + unfold decodable. rewrite filter_cons.
      destruct (decide (is_Some (Utf8.decode (payload m)))); cbn; lia.
Qed.

Example deliver_sample :
  let ms := [ {| msg_topic := lit "t"; payload := [x32; x31]; msg_qos := QoS0 |};
              {| msg_topic := lit "t"; payload := [xff; xfe; x00]; msg_qos := QoS0 |} ] in
  let w := start (sample_node []) true 0 in
  value (node_messages_received_count (metrics (deliver ms w))) (labels_of (node w)) = 2%N
  /\ value (node_bytes_received_count (metrics (deliver ms w))) (labels_of (node w)) = 5%N
  /\ length (log (deliver ms w)) = 1%nat.
Proof. vm_compute. by repeat split. Qed.

(** ** What every method and callback keeps *)

Section Invariants.

Variable T : Transport.

Lemma value_inc_le l l' amount c : (value c l' <= value (inc l amount c) l')%N.
Proof.
  destruct (decide (l = l')) as [->|Hne].
  - rewrite value_inc_same. lia.
  - by rewrite value_inc_other.
Qed.

Lemma set_subscriptions_twice l l' n :
  set_subscriptions l (set_subscriptions l' n) = set_subscriptions l n.
Proof. done. Qed.

Lemma set_subscriptions_same n : set_subscriptions (subscriptions n) n = n.
Proof. by destruct n. Qed.

Lemma evolves_refl w : evolves w w.
Proof.
  split; try done; try (intros; lia).
  by rewrite set_subscriptions_same.
Qed.

Lemma evolves_trans w1 w2 w3 : evolves w1 w2 -> evolves w2 w3 -> evolves w1 w3.
Proof.
  intros [] []. split.
  - by etrans.
  - rewrite ev_node1, ev_node0. apply set_subscriptions_twice.
  - auto.
  - congruence.
  - intros l. etrans; [apply ev_bytes_received0|apply ev_bytes_received1].
  - intros l. etrans; [apply ev_messages_received0|apply ev_messages_received1].
  - intros l. etrans; [apply ev_messages_sent0|apply ev_messages_sent1].
Qed.

(** A state that differs in the transport, the calls and the log only. *)
Lemma evolves_same w w' :
  node w' = node w -> metrics w' = metrics w -> evolves w w'.
Proof.
  intros Hn Hm. split; rewrite ?Hn, ?Hm; try done; try (intros; lia).
  by rewrite set_subscriptions_same.
Qed.

(** A state whose registry was offered one tuple. *)
Lemma evolves_register w w' e :
  is_tuple e = true ->
  node w' = set_subscriptions (register e (subscriptions (node w))) (node w) ->
  metrics w' = metrics w ->
  evolves w w'.
Proof.
  intros He Hn Hm. split; rewrite ?Hn, ?Hm; cbn; try done; try (intros; lia).
  - unfold register. case_bool_decide; [done|]. by apply prefix_app_r.
  - intros Hall. by apply register_tuples.
Qed.

Lemma restore_loop_evolves fuel :
  forall i w w',
    final_world (restore_loop T fuel i w) = Some w' -> evolves w w'.
Proof.
  induction fuel as [|fuel IH]; intros i w w'; [done|].
  destruct (subscriptions (node w) !! i) as [t|] eqn:Hi.
  - rewrite (restore_loop_step T fuel i w t Hi). cbn zeta.
    intros Hw. apply IH in Hw. eapply evolves_trans; [|exact Hw].
    by apply (evolves_register _ _ (entry_of t QoS0 w));
      [apply entry_of_is_tuple| |].
  - rewrite (restore_loop_end T fuel i w Hi). intros [= <-]. apply evolves_refl.
Qed.

(** Every call of a method or callback that comes to an end leaves a state
    that stands in this relation to the state before. *)
Lemma run_evolves fuel op w w' :
  final_world (run T fuel op w) = Some w' -> evolves w w'.
Proof.
  destruct op; cbn [run].
  - rewrite subscribe_eq. intros [= <-].
    by apply (evolves_register _ _ (entry_of t q w));
      [apply entry_of_is_tuple| |].
  - intros [= <-]. by apply evolves_same.
  - rewrite add_subscription_topic_eq. intros [= <-].
    by apply (evolves_register _ _ (entry_of t q w));
      [apply entry_of_is_tuple| |].
  - apply restore_loop_evolves.
  - intros Hw. destruct (ensure_connection_frame T _ _ _ Hw) as (Hn & Hm & _).
    by apply evolves_same.
  - intros Hw.
    assert (Hp : final_world (publish T fuel t p q retain w) = Some w').
    { unfold mbind, M_bind in Hw.
      by destruct (publish T fuel t p q retain w). }
    rewrite publish_eq in Hp.
    destruct (ensure_connection T fuel w) as [[] w1|e w1|] eqn:E; [| |done];
      injection Hp as <-;
      destruct (ensure_connection_frame T fuel w w1) as (Hn & Hm & _);
      try (by rewrite E); by apply evolves_same.
  - intros [= <-]. by apply evolves_same.
  - rewrite on_connect_eq. intros Hw. apply restore_loop_evolves in Hw.
    eapply evolves_trans; [|exact Hw]. by apply evolves_same.
  - intros [= <-]. by apply evolves_same.
  - intros [= <-]. by apply evolves_same.
  - intros Hw.
    destruct (on_message_world message w)
      as (w1 & Hw1 & _ & Hn & _ & _ & _ & Hmr & Hbr & Hms & Hbs & _).
    rewrite Hw in Hw1. injection Hw1 as <-.
    split; rewrite ?Hn, ?Hmr, ?Hbr, ?Hms, ?Hbs; try done;
      try (intros; lia); try (intros; apply value_inc_le).
    by rewrite set_subscriptions_same.
  - intros [= <-]. split; cbn; try done; try (intros; lia);
      try (intros; apply value_inc_le).
    by rewrite set_subscriptions_same.
Qed.

Lemma reachable_evolves w w' : reachable T w w' -> evolves w w'.
Proof.
  induction 1 as [w|w w1 w2 (fuel & op & Hstep) _ IH].
  - apply evolves_refl.
  - eapply evolves_trans; [|exact IH]. by apply (run_evolves fuel op).
Qed.

End Invariants.

(** The state two calls lead to: a subscribe and a received message. *)
Lemma sample_run_reachable :
  let T := sample_transport 0 0 in
  let w := start (sample_node []) true 0 in
  let w1 := default w (final_world (run T 0 (Subscribe (TStr (lit "sensors/a")) QoS1) w)) in
  let m := {| msg_topic := lit "sensors/a"; payload := [x32; x31]; msg_qos := QoS1 |} in
  let w2 := default w1 (final_world (run T 0 (OnMessage m) w1)) in
  reachable T w w2.
Proof.
  intros T w w1 m w2.
  apply rtc_l with w1; [by exists 0%nat, (Subscribe (TStr (lit "sensors/a")) QoS1)|].
  apply rtc_once. by exists 0%nat, (OnMessage m).
Defined.

(** X18: the registry only grows.  Whatever methods and callbacks run,
    [unsubscribe] among them, the registry they leave starts with the
    registry they found: no entry is ever removed, replaced or moved. *)
Theorem registry_only_grows :
  forall (T : Transport) (w w' : World),
    reachable T w w' ->
    subscriptions (node w) `prefix_of` subscriptions (node w').
Proof.
  intros T w w' Hr. apply (reachable_evolves T w w') in Hr. by destruct Hr.
Qed.

Lemma registry_only_grows_witness :
  let T := sample_transport 0 0 in
  let w := start (sample_node []) true 0 in
  let w1 := default w (final_world (run T 0 (Subscribe (TStr (lit "sensors/a")) QoS1) w)) in
  let m := {| msg_topic := lit "sensors/a"; payload := [x32; x31]; msg_qos := QoS1 |} in
  let w2 := default w1 (final_world (run T 0 (OnMessage m) w1)) in
  reachable T w w2
  /\ subscriptions (node w) `prefix_of` subscriptions (node w2).
Proof.
  intros T w w1 m w2. split; [exact sample_run_reachable|].
  exact (registry_only_grows T w w2 sample_run_reachable).
Defined.

(** X19: no method and no callback changes the identity or the
    configuration of the node: [name], [node_id], [node_type], [client_id],
    host, port, keepalive, timeout, [reconnect_attempts] and the credentials
    are, after any run, what [__init__] made them, and so are the labels of
    the node's counters.  The registry is the one attribute that changes. *)
Theorem node_attributes_are_fixed :
  forall (T : Transport) (w w' : World),
    reachable T w w' ->
    node w' = set_subscriptions (subscriptions (node w')) (node w)
    /\ labels_of (node w') = labels_of (node w).
Proof.
  intros T w w' Hr. apply (reachable_evolves T w w') in Hr.
  destruct Hr as [_ Hn _ _ _ _ _]. split; [exact Hn|]. by rewrite Hn.
Qed.

Lemma node_attributes_are_fixed_witness :
  let T := sample_transport 0 0 in
  let w := start (sample_node []) true 0 in
  let w1 := default w (final_world (run T 0 (Subscribe (TStr (lit "sensors/a")) QoS1) w)) in
  let m := {| msg_topic := lit "sensors/a"; payload := [x32; x31]; msg_qos := QoS1 |} in
  let w2 := default w1 (final_world (run T 0 (OnMessage m) w1)) in
  reachable T w w2
  /\ node w2 = set_subscriptions (subscriptions (node w2)) (node w)
  /\ labels_of (node w2) = labels_of (node w).
Proof.
  intros T w w1 m w2. split; [exact sample_run_reachable|].
  exact (node_attributes_are_fixed T w w2 sample_run_reachable).
Defined.

(** X20: the counters never go down, and the sent-byte counter never
    moves: after any run of methods and callbacks, every label of the
    received-byte, received-message and sent-message counters has at least
    the value it had, and [node_bytes_sent_count] is what it was. *)
Theorem counters_never_decrease :
  forall (T : Transport) (w w' : World),
    reachable T w w' ->
    node_bytes_sent_count (metrics w') = node_bytes_sent_count (metrics w)
    /\ forall l,
         (value (node_bytes_received_count (metrics w)) l
          <= value (node_bytes_received_count (metrics w')) l)%N
         /\ (value (node_messages_received_count (metrics w)) l
             <= value (node_messages_received_count (metrics w')) l)%N
         /\ (value (node_messages_sent_count (metrics w)) l
             <= value (node_messages_sent_count (metrics w')) l)%N.
Proof.
  intros T w w' Hr. apply (reachable_evolves T w w') in Hr.
  destruct Hr as [_ _ _ Hbs Hbr Hmr Hms]. split; [exact Hbs|].
  intros l. split; [apply Hbr|split; [apply Hmr|apply Hms]].
Qed.

Lemma counters_never_decrease_witness :
  let T := sample_transport 0 0 in
  let w := start (sample_node []) true 0 in
  let w1 := default w (final_world (run T 0 (Subscribe (TStr (lit "sensors/a")) QoS1) w)) in
  let m := {| msg_topic := lit "sensors/a"; payload := [x32; x31]; msg_qos := QoS1 |} in
  let w2 := default w1 (final_world (run T 0 (OnMessage m) w1)) in
  reachable T w w2
  /\ node_bytes_sent_count (metrics w2) = node_bytes_sent_count (metrics w)
  /\ value (node_bytes_received_count (metrics w2)) (labels_of (node w)) = 2%N.
Proof.
  intros T w w1 m w2. split; [exact sample_run_reachable|].
  split; [|vm_compute; reflexivity].
  exact (proj1 (counters_never_decrease T w w2 sample_run_reachable)).
Defined.

(** X21: a registry that holds tuples holds tuples after any run of
    methods and callbacks; so a node that started with an empty registry
    has, at every [on_connect], each entry of its registry subscribed to
    once, in registry order, with no other call and with the node left as
    it was. *)
Theorem registry_of_tuples_is_replayed_exactly :
  forall (T : Transport) (w w' : World) (fuel : nat),
    reachable T w w' ->
    Forall (λ t, is_tuple t = true) (subscriptions (node w)) ->
    (length (subscriptions (node w')) < fuel)%nat ->
    Forall (λ t, is_tuple t = true) (subscriptions (node w'))
    /\ exists w'',
         on_connect T fuel w' = Done tt w''
         /\ calls w'' = calls w' ++ (CSubscribe <$> subscriptions (node w'))
         /\ node w'' = node w'.
Proof.
  intros T w w' fuel Hr Hall Hfuel. apply (reachable_evolves T w w') in Hr.
  destruct Hr as [_ _ Ht _ _ _ _]. specialize (Ht Hall). split; [exact Ht|].
  rewrite (on_connect_tuples T fuel w' Ht Hfuel). by eexists.
Qed.

Lemma registry_of_tuples_is_replayed_exactly_witness :
  let T := sample_transport 0 0 in
  let w := start (sample_node []) true 0 in
  let w1 := default w (final_world (run T 0 (Subscribe (TStr (lit "sensors/a")) QoS1) w)) in
  let m := {| msg_topic := lit "sensors/a"; payload := [x32; x31]; msg_qos := QoS1 |} in
  let w2 := default w1 (final_world (run T 0 (OnMessage m) w1)) in
  let a := TTuple (lit "sensors/a") {| oid := 0; QoS := QoS1 |} in
  (reachable T w w2
   /\ Forall (λ t, is_tuple t = true) (subscriptions (node w))
   /\ (length (subscriptions (node w2)) < 2)%nat)
  /\ exists w'',
       on_connect T 2 w2 = Done tt w''
       /\ calls w'' = [CSubscribe a; CSubscribe a]
       /\ node w'' = node w2.
Proof.
  intros T w w1 m w2 a.
  assert (Hall : Forall (λ t, is_tuple t = true) (subscriptions (node w)))
    by constructor.
  assert (Hfuel : (length (subscriptions (node w2)) < 2)%nat) by (vm_compute; lia).
  split; [split; [exact sample_run_reachable|by split]|].
  exact (proj2 (registry_of_tuples_is_replayed_exactly T w w2 2
                  sample_run_reachable Hall Hfuel)).
Defined.

(** ** Bare strings and the identity of options objects *)

(** X22: every [subscribe] with a bare topic string appends an entry to
    the registry, also when the same string was subscribed before with the
    same QoS: the tuple it builds holds a new options object, which equals
    none of those the registry holds.  Two calls for one string leave two
    entries. *)
Theorem subscribe_bare_string_always_appends :
  forall (T : Transport) (s : str) (q q' : qos) (w : World),
    oids_below (next_oid w) (subscriptions (node w)) ->
    let e := TTuple s {| oid := next_oid w; QoS := q |} in
    let e' := TTuple s {| oid := S (next_oid w); QoS := q' |} in
    (exists w',
       subscribe T (TStr s) q w = Done tt w'
       /\ subscriptions (node w') = subscriptions (node w) ++ [e]
       /\ oids_below (next_oid w') (subscriptions (node w')))
    /\ exists w'',
         (subscribe T (TStr s) q;; subscribe T (TStr s) q') w = Done tt w''
         /\ subscriptions (node w'') = subscriptions (node w) ++ [e; e'].
Proof.
  intros T s q q' w Hwf e e'.
  assert (Hnew : forall k l o, oids_below k l -> oid o = k -> TTuple s o ∉ l).
  { intros k l o Hb Ho Hin. apply Hb in Hin. lia. }
  assert (Hgrow : oids_below (S (next_oid w)) (subscriptions (node w) ++ [e])).
  { intros s0 o Hin. apply elem_of_app in Hin as [Hin|Hin].
    - apply Hwf in Hin. lia.
    - apply list_elem_of_singleton in Hin. injection Hin as _ ->. cbn. lia. }
  assert (He : register e (subscriptions (node w)) = subscriptions (node w) ++ [e]).
  { apply register_notin. by apply (Hnew (next_oid w)). }
  split.
  - eexists. split; [apply subscribe_eq|]. cbn. fold e. rewrite He.
    by split.
  - unfold mbind, M_bind. rewrite subscribe_eq. cbn zeta. cbn [entry_of].
    fold e. rewrite subscribe_eq. cbn. fold e e'. rewrite He.
    eexists. split; [reflexivity|]. cbn.
    rewrite register_notin; [by rewrite <- app_assoc|].
    by apply (Hnew (S (next_oid w))).
Qed.

Lemma subscribe_bare_string_always_appends_witness :
  let T := sample_transport 0 0 in
  let w := start (sample_node []) true 0 in
  let a := lit "sensors/a" in
  oids_below (next_oid w) (subscriptions (node w))
  /\ exists w'',
       (subscribe T (TStr a) QoS0;; subscribe T (TStr a) QoS0) w = Done tt w''
       /\ subscriptions (node w'')
          = [TTuple a {| oid := 0; QoS := QoS0 |};
             TTuple a {| oid := 1; QoS := QoS0 |}].
Proof.
  intros T w a.
  assert (H : oids_below (next_oid w) (subscriptions (node w))).
  { intros s o Hin. by apply elem_of_nil in Hin. }
  split; [exact H|].
  exact (proj2 (subscribe_bare_string_always_appends T a QoS0 QoS0 w H)).
Defined.
